(** * View-transition bookkeeping of start-perfect-navigation

    A shallow embedding of
    - [handleRouteChangeComplete]
      (app/rich-view-transitions/utils/handle-route-change-complete.ts),
    - the [handleClick] handler of the [Link] wrapper,
    - [getMockArticleList] and the render of [BlogItemPostPage], and
    - the [NextImage] component: its configuration, the loading handlers of
      its [img] element and the props it renders,
    together with the properties the specification states about them and
    further properties the code itself shows.

    The browser is modelled as explicit state: the [window.__NRVT_*] globals,
    [sessionStorage] as a finite map from strings to strings, and the
    [style.viewTransitionName] of every element as a finite map from element
    handles to names.  The rendered document is read-only for the handlers and
    is represented by its query interface.  Handlers run in a state-and-error
    monad: dereferencing [null] raises a [TypeError], and
    [document.querySelector] raises a [SyntaxError] on a string that is no
    selector; what a handler changed before it throws stays changed. *)

From Stdlib Require Import Strings.String Strings.Ascii.
From stdpp Require Import base option gmap strings list fin_maps pretty sorting.

Open Scope string_scope.
Set Warnings "-register-all".

(** ** JavaScript strings and values *)

Module JS.

(** The double-quote character, used inside attribute selectors. *)
Definition dquote : string := String (ascii_of_nat 34) EmptyString.

(** [`${x}`] for [x : string | undefined]. *)
Definition show (x : option string) : string :=
  match x with
  | Some s => s
  | None => "undefined"
  end.

(** Truthiness of a [string | undefined | null]: the string itself when it
    is defined and non-empty. *)
Definition truthy (x : option string) : option string :=
  match x with
  | Some s => if String.eqb s "" then None else Some s
  | None => None
  end.

(** [s.replace(pat, '')] for a string pattern: the first occurrence of
    [pat] is removed; the empty pattern matches at position 0. *)
Fixpoint replace_first (pat s : string) : string :=
  if String.prefix pat s
  then String.substring (String.length pat) (String.length s - String.length pat) s
  else match s with
       | EmptyString => EmptyString
       | String c s' => String c (replace_first pat s')
       end.

(** JSON data, as imported from a [.json] module.  Numbers keep their
    literal; objects keep their properties in insertion order. *)
Inductive value : Type :=
| VUndefined
| VNull
| VBool (b : bool)
| VNum (literal : string)
| VStr (s : string)
| VArr (items : list value)
| VObj (props : list (string * value)).

Inductive error : Type :=
| TypeError
| SyntaxError.

Inductive result (A : Type) : Type :=
| Ok (a : A)
| Throw (e : error).
Arguments Ok {A} a.
Arguments Throw {A} e.

#[global] Instance result_ret : MRet result := fun A a => Ok a.
#[global] Instance result_bind : MBind result := fun A B f m =>
  match m with
  | Ok a => f a
  | Throw e => Throw e
  end.

(** Own property lookup in a property list. *)
Fixpoint lookup_prop (k : string) (props : list (string * value)) : option value :=
  match props with
  | [] => None
  | (k', v) :: rest => if String.eqb k k' then Some v else lookup_prop k rest
  end.

(** The own data property [k] of [o], [undefined] when there is none. *)
Definition field (o : value) (k : string) : value :=
  match o with
  | VObj props => default VUndefined (lookup_prop k props)
  | _ => VUndefined
  end.

(** [o.k]: a [TypeError] when [o] is [undefined] or [null]. *)
Definition get (o : value) (k : string) : result value :=
  match o with
  | VUndefined | VNull => Throw TypeError
  | _ => Ok (field o k)
  end.

(** [arr[i]]: [undefined] past the end. *)
Definition index (arr : list value) (i : N) : value :=
  default VUndefined (arr !! N.to_nat i).

(** [{ ...props, k: v }]: an existing property keeps its place. *)
Fixpoint set_prop (k : string) (v : value) (props : list (string * value))
  : list (string * value) :=
  match props with
  | [] => [(k, v)]
  | (k', v') :: rest =>
      if String.eqb k k' then (k, v) :: rest else (k', v') :: set_prop k v rest
  end.

(** [{ ...o }]: the own enumerable properties of an object. *)
Definition spread (o : value) : list (string * value) :=
  match o with
  | VObj props => props
  | _ => []
  end.

End JS.

Import JS.

(** ** The browser *)

(** Elements are handles into the rendered document. *)
Abbreviation element := nat.

(** The rendered document, as the handlers see it: read-only, through its
    query interface.  [querySelector] and [elementQuerySelector] answer a
    selector with an element or [null]; [malformed] tells the selector
    strings [document.querySelector] rejects with a [SyntaxError]. *)
Record document : Type := {
  querySelector : string -> option element;
  malformed : string -> bool;
  elementQuerySelector : element -> string -> option element;
  img_src : element -> string;
  location_origin : string;
}.

(** [document.querySelector(sel)] for a selector computed at run time: a
    [SyntaxError] when the string is no selector, else an element or
    [null]. *)
Definition query (doc : document) (sel : string) : result (option element) :=
  if malformed doc sel then Throw SyntaxError else Ok (querySelector doc sel).

(** The [window.__NRVT_*] globals. *)
Record window : Type := {
  __NRVT_routerKey : option string;
  __NRVT_previousRouterKey : option string;
  __NRVT_transitionImgSelector : option string;
  __NRVT_transitionAttributeName : option string;
  __NRVT_transitionAttributeValue : option string;
}.

Record browser : Type := {
  win : window;
  sessionStorage : gmap string string;
  (** [el.style.viewTransitionName], for the elements that carry one *)
  viewTransitionName : gmap element string;
  (** the single placeholder-data slot *)
  placeholder : value;
}.

(** The module may also be evaluated where there is no [window]. *)
Inductive runtime : Type :=
| Server
| Client (b : browser).

Definition with_win (f : window -> window) (b : browser) : browser :=
  {| win := f (win b);
     sessionStorage := sessionStorage b;
     viewTransitionName := viewTransitionName b;
     placeholder := placeholder b |}.

Definition with_sessionStorage (f : gmap string string -> gmap string string)
    (b : browser) : browser :=
  {| win := win b;
     sessionStorage := f (sessionStorage b);
     viewTransitionName := viewTransitionName b;
     placeholder := placeholder b |}.

Definition with_viewTransitionName (f : gmap element string -> gmap element string)
    (b : browser) : browser :=
  {| win := win b;
     sessionStorage := sessionStorage b;
     viewTransitionName := f (viewTransitionName b);
     placeholder := placeholder b |}.

Definition with_placeholder (v : value) (b : browser) : browser :=
  {| win := win b;
     sessionStorage := sessionStorage b;
     viewTransitionName := viewTransitionName b;
     placeholder := v |}.

Definition set_routerKey (k : option string) (w : window) : window :=
  {| __NRVT_routerKey := k;
     __NRVT_previousRouterKey := __NRVT_previousRouterKey w;
     __NRVT_transitionImgSelector := __NRVT_transitionImgSelector w;
     __NRVT_transitionAttributeName := __NRVT_transitionAttributeName w;
     __NRVT_transitionAttributeValue := __NRVT_transitionAttributeValue w |}.

Definition set_previousRouterKey (k : option string) (w : window) : window :=
  {| __NRVT_routerKey := __NRVT_routerKey w;
     __NRVT_previousRouterKey := k;
     __NRVT_transitionImgSelector := __NRVT_transitionImgSelector w;
     __NRVT_transitionAttributeName := __NRVT_transitionAttributeName w;
     __NRVT_transitionAttributeValue := __NRVT_transitionAttributeValue w |}.

Definition set_transitionImgSelector (k : option string) (w : window) : window :=
  {| __NRVT_routerKey := __NRVT_routerKey w;
     __NRVT_previousRouterKey := __NRVT_previousRouterKey w;
     __NRVT_transitionImgSelector := k;
     __NRVT_transitionAttributeName := __NRVT_transitionAttributeName w;
     __NRVT_transitionAttributeValue := __NRVT_transitionAttributeValue w |}.

Definition set_transitionAttributeName (k : option string) (w : window) : window :=
  {| __NRVT_routerKey := __NRVT_routerKey w;
     __NRVT_previousRouterKey := __NRVT_previousRouterKey w;
     __NRVT_transitionImgSelector := __NRVT_transitionImgSelector w;
     __NRVT_transitionAttributeName := k;
     __NRVT_transitionAttributeValue := __NRVT_transitionAttributeValue w |}.

Definition set_transitionAttributeValue (k : option string) (w : window) : window :=
  {| __NRVT_routerKey := __NRVT_routerKey w;
     __NRVT_previousRouterKey := __NRVT_previousRouterKey w;
     __NRVT_transitionImgSelector := __NRVT_transitionImgSelector w;
     __NRVT_transitionAttributeName := __NRVT_transitionAttributeName w;
     __NRVT_transitionAttributeValue := k |}.

(** ** Handlers as state transformers that may throw *)

(** A handler reads the document and changes the browser; it returns or
    throws, and what it changed before throwing stays changed. *)
Definition M (A : Type) : Type := document -> browser -> result A * browser.

#[global] Instance M_ret : MRet M := fun A a _ b => (Ok a, b).
#[global] Instance M_bind : MBind M := fun A B f m doc b =>
  match m doc b with
  | (Ok a, b') => f a doc b'
  | (Throw e, b') => (Throw e, b')
  end.

Definition gets {A : Type} (f : browser -> A) : M A := fun _ b => (Ok (f b), b).
Definition modify (f : browser -> browser) : M unit := fun _ b => (Ok tt, f b).
Definition ask {A : Type} (f : document -> A) : M A := fun doc b => (Ok (f doc), b).
Definition throw {A : Type} (e : error) : M A := fun _ b => (Throw e, b).

(** [sessionStorage.getItem(k)] and [sessionStorage.setItem(k, v)], for a
    storage that is available and takes every write: no quota is set. *)
Definition getItem (k : string) : M (option string) :=
  gets (fun b => sessionStorage b !! k).
Definition setItem (k v : string) : M unit :=
  modify (with_sessionStorage <[k := v]>).

(** [document.querySelector(sel)]. *)
Definition document_querySelector (sel : string) : M (option element) :=
  fun doc b => (query doc sel, b).

(** [el.style.viewTransitionName = name]; [el] may be [null], and then the
    property access throws. *)
Definition set_style_viewTransitionName (el : option element) (name : string) : M unit :=
  match el with
  | Some e => modify (with_viewTransitionName <[e := name]>)
  | None => throw TypeError
  end.

(** [el.src]; throws on [null]. *)
Definition get_src (el : option element) : M string :=
  match el with
  | Some e => ask (fun doc => img_src doc e)
  | None => throw TypeError
  end.

(** Session-storage key of the selector recorded for going from [a] to [b]. *)
Definition selector_key (a b : option string) : string :=
  "__NRVT_view_transition_image_selector_" +:+ show a +:+ "-" +:+ show b.

(** The attribute selector [[name="value"]] of a transition marker. *)
Definition attribute_selector (name value : option string) : string :=
  "[" +:+ show name +:+ "=" +:+ dquote +:+ show value +:+ dquote +:+ "]".

Definition transition_img_name : string := "__NRVT_transition-img".

(** ** The handlers *)

(** Descriptor handed to [handleTransitionStarted] by the link wrapper. *)
Record transition : Type := {
  fromElement : option element;
  toAttributeName : string;
  toAttributeValue : string;
  transitionName : string;
}.

(** What a [Link] is rendered with, and the click it receives. *)
Record link : Type := {
  onClick : option (M unit);
  placeholderData : value;
  currentTarget : element;
  (** [router.location.state.key] at render time *)
  location_state_key : option string;
}.

Section Handlers.

(** [getElementSelector] (utils/get-element-selector) computes a CSS
    selector for an element of the current document, or nothing.  The
    strategy is the resolver's own; the handlers only store its answer. *)
Variable getElementSelector : document -> element -> option string.

(** Modelled from the spec: [cleanUpTransition]
    (utils/clean-up-transition) is not part of the sources at hand.  It
    clears any transition name left on elements by the prior pass. *)
Definition cleanUpTransition : M unit :=
  modify (with_viewTransitionName (fun _ => ∅)).

(** Modelled from the spec: [setPlaceholderData] is not part of the sources
    at hand.  It overwrites the single placeholder slot. *)
Definition setPlaceholderData (v : value) : M unit :=
  modify (with_placeholder v).

(** Modelled from the spec: [handleTransitionStarted] is not part of the
    sources at hand.  The link wrapper calls it on every click.  It takes
    the descriptor's attribute name and value as the pending transition
    marker, in place of the one before (a single slot, the last write wins),
    and records in the transient slot the selector the resolver gives for
    the element, which is nothing when no element was given.  The
    specification gives the router key it receives no effect.  The link
    wrapper passes an array of one descriptor. *)
Definition handleTransitionStarted (routerKey : string) (t : transition) : M unit :=
  sel ← ask (fun doc => match fromElement t with
                        | Some el => getElementSelector doc el
                        | None => None
                        end);
  modify (with_win (set_transitionImgSelector sel));;
  modify (with_win (set_transitionAttributeName (Some (toAttributeName t))));;
  modify (with_win (set_transitionAttributeValue (Some (toAttributeValue t)))).

(** [handleClick] of the [Link] wrapper.  Its two selectors are well-formed
    literals, so its queries answer and never raise a [SyntaxError]. *)
Definition handleClick (l : link) : M unit :=
  match onClick l with
  | Some f => f
  | None => mret tt
  end;;
  setPlaceholderData (placeholderData l);;
  inLink ← ask (fun doc => elementQuerySelector doc (currentTarget l) ".transitionable-img");
  transitionImg ← match inLink with
                  | Some el => mret (Some el)
                  | None => ask (fun doc => querySelector doc "#transition-img")
                  end;
  src ← match transitionImg with
        | Some _ =>
            s ← get_src transitionImg;
            origin ← ask location_origin;
            mret (replace_first origin s)
        | None => mret ""
        end;
  handleTransitionStarted (default "initial" (location_state_key l))
    {| fromElement := transitionImg;
       toAttributeName := "src";
       toAttributeValue := src;
       transitionName := "transition-name" |}.

(** The body of [handleRouteChangeComplete] once [window] is known to
    exist. *)
Definition routeChangeComplete (routerKey : option string) : M unit :=
  current ← gets (fun b => __NRVT_routerKey (win b));
  modify (with_win (set_previousRouterKey current));;
  modify (with_win (set_routerKey routerKey));;
  previous ← gets (fun b => __NRVT_previousRouterKey (win b));
  recorded ← gets (fun b => __NRVT_transitionImgSelector (win b));
  match truthy recorded with
  | Some sel =>
      setItem (selector_key previous routerKey) sel;;
      modify (with_win (set_transitionImgSelector None))
  | None => mret tt
  end;;
  (* Navigation via back-forward *)
  imgSelector ← getItem (selector_key routerKey previous);
  img ← match truthy imgSelector with
        | Some sel => document_querySelector sel
        | None => mret None
        end;
  cleanUpTransition;;
  match img with
  | Some _ => set_style_viewTransitionName img transition_img_name
  | None =>
      (* Navigation via clicking link *)
      name ← gets (fun b => __NRVT_transitionAttributeName (win b));
      value ← gets (fun b => __NRVT_transitionAttributeValue (win b));
      transitionImg ← document_querySelector (attribute_selector name value);
      match transitionImg with
      | Some el =>
          found ← ask (fun doc => getElementSelector doc el);
          let imgSelector := default "" (truthy found) in
          set_style_viewTransitionName transitionImg transition_img_name;;
          setItem (selector_key routerKey previous) imgSelector
      | None => mret tt
      end
  end;;
  modify (with_win (set_transitionAttributeValue None)).

(** [handleRouteChangeComplete(routerKey)]. *)
Definition handleRouteChangeComplete (routerKey : option string) (doc : document)
    (rt : runtime) : result unit * runtime :=
  match rt with
  | Server => (Ok tt, Server)
  | Client b =>
      let (r, b') := routeChangeComplete routerKey doc b in
      (r, Client b')
  end.

End Handlers.

(** ** A document given by finitely many answers *)

Module Tabled.

Fixpoint assoc {A : Type} (k : string) (l : list (string * A)) : option A :=
  match l with
  | [] => None
  | (k', a) :: rest => if String.eqb k k' then Some a else assoc k rest
  end.

Fixpoint assoc_nat {A : Type} (k : nat) (l : list (nat * A)) : option A :=
  match l with
  | [] => None
  | (k', a) :: rest => if Nat.eqb k k' then Some a else assoc_nat k rest
  end.

(** [top] answers [document.querySelector], [inside] answers
    [el.querySelector] per element, [srcs] gives [el.src]; every other
    query answers [null], and the strings of [rejected] are no selectors. *)
Definition strict (rejected : list string) (top : list (string * element))
    (inside : list (element * list (string * element)))
    (srcs : list (element * string)) (origin : string) : document :=
  {| querySelector := fun sel => assoc sel top;
     malformed := fun sel => existsb (String.eqb sel) rejected;
     elementQuerySelector := fun el sel =>
       match assoc_nat el inside with
       | Some answers => assoc sel answers
       | None => None
       end;
     img_src := fun el => default "" (assoc_nat el srcs);
     location_origin := origin |}.

(** The same, with every string asked a selector. *)
Definition doc : list (string * element) -> list (element * list (string * element))
    -> list (element * string) -> string -> document :=
  strict [].

(** A resolver that names an element by an id derived from its handle. *)
Definition by_id (_ : document) (el : element) : option string :=
  Some ("#img-" +:+ pretty el).

Definition fresh_window : window :=
  {| __NRVT_routerKey := None;
     __NRVT_previousRouterKey := None;
     __NRVT_transitionImgSelector := None;
     __NRVT_transitionAttributeName := None;
     __NRVT_transitionAttributeValue := None |}.

Definition fresh : browser :=
  {| win := fresh_window;
     sessionStorage := ∅;
     viewTransitionName := ∅;
     placeholder := VUndefined |}.

End Tabled.

(** ** Observations on a completion

    The stages a completion goes through, named so that the theorems can
    speak about them. *)

Section Stages.

Variable getElementSelector : document -> element -> option string.
Variable routerKey : option string.
Variable doc : document.
Variable b : browser.

(** The key held as current before the completion: the one that becomes
    previous. *)
Definition previousKey : option string := __NRVT_routerKey (win b).

(** Key the forward leg stores under, and key the backward lookup reads. *)
Definition forwardKey : string := selector_key previousKey routerKey.
Definition backwardKey : string := selector_key routerKey previousKey.

(** State after the keys are shifted and the transient selector, if any, is
    persisted. *)
Definition persisted : browser :=
  let shifted :=
    with_win (set_routerKey routerKey) (with_win (set_previousRouterKey previousKey) b) in
  match truthy (__NRVT_transitionImgSelector (win b)) with
  | Some sel =>
      with_win (set_transitionImgSelector None)
        (with_sessionStorage <[forwardKey := sel]> shifted)
  | None => shifted
  end.

(** What the backward lookup yields: the live element, if any, or the
    error of the query. *)
Definition backward_lookup : result (option element) :=
  match truthy (sessionStorage persisted !! backwardKey) with
  | Some sel => query doc sel
  | None => Ok None
  end.

(** What the query for the pending marker yields. *)
Definition marker_lookup : result (option element) :=
  query doc
    (attribute_selector (__NRVT_transitionAttributeName (win b))
                        (__NRVT_transitionAttributeValue (win b))).

(** Old names cleared, then [el] named. *)
Definition marked (el : element) : browser -> browser :=
  with_viewTransitionName (fun _ => <[el := transition_img_name]> ∅).

(** Old names cleared, none assigned. *)
Definition unmarked : browser -> browser :=
  with_viewTransitionName (fun _ => ∅).

(** The marker's attribute value cleared. *)
Definition settled : browser -> browser :=
  with_win (set_transitionAttributeValue None).

(** How a completion ends and the state it leaves, case by case.  A
    backward query that throws does so before the cleanup, a marker query
    that throws after it. *)
Definition outcome : result unit * browser :=
  match backward_lookup with
  | Throw e => (Throw e, persisted)
  | Ok (Some el) => (Ok tt, settled (marked el persisted))
  | Ok None =>
      match marker_lookup with
      | Throw e => (Throw e, unmarked persisted)
      | Ok (Some el) =>
          (Ok tt,
           settled
             (with_sessionStorage
                <[backwardKey := default "" (truthy (getElementSelector doc el))]>
                (marked el persisted)))
      | Ok None => (Ok tt, settled (unmarked persisted))
      end
  end.

End Stages.

(** The image a click on link [l] finds: inside the link first, then the
    page-wide fallback. *)
Definition clicked_image (doc : document) (l : link) : option element :=
  match elementQuerySelector doc (currentTarget l) ".transitionable-img" with
  | Some el => Some el
  | None => querySelector doc "#transition-img"
  end.

(** The caller-supplied [onClick], or nothing. *)
Definition run_onClick (l : link) : M unit :=
  match onClick l with
  | Some f => f
  | None => mret tt
  end.

(** The pending marker together with the transient selector. *)
Definition marker_state (b : browser) : option string * option string * option string :=
  (__NRVT_transitionImgSelector (win b),
   __NRVT_transitionAttributeName (win b),
   __NRVT_transitionAttributeValue (win b)).

(** The state a click leaves once the caller's [onClick] has run: the
    placeholder slot overwritten, the marker replaced by [src] and the
    source of the image found (the empty string when none was), and the
    transient slot holding the selector of that image, if any. *)
Definition click_outcome (getElementSelector : document -> element -> option string)
    (l : link) (doc : document) (b : browser) : browser :=
  let stored := with_placeholder (placeholderData l) b in
  let transitionImg := clicked_image doc l in
  with_win (set_transitionAttributeValue
              (Some match transitionImg with
                    | Some el => replace_first (location_origin doc) (img_src doc el)
                    | None => ""
                    end))
    (with_win (set_transitionAttributeName (Some "src"))
       (with_win (set_transitionImgSelector
                    match transitionImg with
                    | Some el => getElementSelector doc el
                    | None => None
                    end) stored)).

(** No ['-'] in a router key. *)
Fixpoint hyphen_free (s : string) : bool :=
  match s with
  | EmptyString => true
  | String c s' => negb (Ascii.eqb c "-") && hyphen_free s'
  end.

(** ** Mock articles *)

Section Mock.

(** The array imported from [public/mock.json]. *)
Variable articlesList : list value.

(** What JavaScript prints for an integer that is not a safe one: digits
    rounded to what tells the number apart, in exponent form from [1e21]
    on. *)
Variable beyond_safe : N -> string.

(** [`${n}`] for a number [n] that is a non-negative integer: its decimal
    digits while it is a safe integer. *)
Definition Number_toString (n : N) : string :=
  if (n <? 2 ^ 53)%N then pretty n else beyond_safe n.

(** [getMockArticleList(origId)] for a number that is a non-negative
    integer, given by its value. *)
Definition getMockArticleList (origId : N) : result value :=
  let id := (origId mod 20)%N in
  articleAttributes ← get (index articlesList id) "attributes";
  description ← get articleAttributes "description";
  headings ← get articleAttributes "headings";
  previewContent ← get articleAttributes "previewContent";
  thumbnail ← get articleAttributes "thumbnail";
  let title := "Lorem ipsum " +:+ Number_toString origId in
  let slug := "lorem-ipsum-" +:+ Number_toString origId in
  mret (VObj (set_prop "attributes"
                (VObj [("description", description);
                       ("headings", headings);
                       ("previewContent", previewContent);
                       ("thumbnail", thumbnail);
                       ("slug", VStr slug);
                       ("title", VStr title)])
                (spread (index articlesList id)))).

End Mock.

(** ** What a click hands over *)

(** The descriptor a click on [l] hands to [handleTransitionStarted]. *)
Definition click_transition (doc : document) (l : link) : transition :=
  let transitionImg := clicked_image doc l in
  {| fromElement := transitionImg;
     toAttributeName := "src";
     toAttributeValue :=
       match transitionImg with
       | Some el => replace_first (location_origin doc) (img_src doc el)
       | None => ""
       end;
     transitionName := "transition-name" |}.

(** [s.indexOf(pat)]: where [pat] first occurs in [s], if it does. *)
Fixpoint indexOf (pat s : string) : option nat :=
  if String.prefix pat s then Some 0
  else match s with
       | EmptyString => None
       | String _ s' => S <$> indexOf pat s'
       end.

(** [undefined] or [null]. *)
Definition nullish (v : value) : bool :=
  match v with
  | VUndefined | VNull => true
  | _ => false
  end.

(** ** The image configuration of [NextImage] *)

Module ImageConfig.

(** [arr.sort(cmp)] on numbers: [a] stays before [b] when [cmp a b <= 0].
    The sort is stable, and for a comparator that orders the numbers its
    result is the one ordered arrangement of the array. *)
Definition before (cmp : Z -> Z -> Z) (a b : Z) : Prop := (cmp a b <= 0)%Z.

#[global] Instance before_dec (cmp : Z -> Z -> Z) : RelDecision (before cmp) :=
  fun a b => decide (cmp a b <= 0)%Z.

Definition sort (cmp : Z -> Z -> Z) (arr : list Z) : list Z :=
  merge_sort (before cmp) arr.

(** The comparator [(a, b) => a - b]. *)
Definition difference (a b : Z) : Z := (a - b)%Z.

(** What the component reads of [imageConfigDefault] (lib/image-config);
    its other properties are carried along untouched. *)
Record imageConfig : Type := {
  deviceSizes : list Z;
  imageSizes : list Z;
  qualities : option (list Z);
  others : list (string * value);
}.

(** The configuration handed to [getImgProps]: the default spread, with
    [allSizes], [deviceSizes] and [qualities] on top. *)
Record resolved : Type := {
  base : imageConfig;
  allSizes : list Z;
}.

(** The [useMemo] callback of [NextImage].  [c.deviceSizes.sort] and
    [c.qualities?.sort] sort the arrays of the shared default in place, so
    the default is returned too, as the callback leaves it. *)
Definition config (imageConfigDefault : imageConfig) : resolved * imageConfig :=
  let c := imageConfigDefault in
  let allSizes := sort difference (deviceSizes c ++ imageSizes c) in
  let deviceSizes := sort difference (deviceSizes c) in
  let qualities := sort difference <$> qualities c in
  let c' := {| deviceSizes := deviceSizes;
               imageSizes := imageSizes c;
               qualities := qualities;
               others := others c |} in
  ({| base := c'; allSizes := allSizes |}, c').

End ImageConfig.

(** ** The article page *)

Section Article.

(** Whether the number a JSON literal denotes is zero; every other number
    read from JSON is truthy. *)
Variable number_is_zero : string -> bool.

(** [Boolean(v)]. *)
Definition to_boolean (v : value) : bool :=
  match v with
  | VUndefined | VNull => false
  | VBool b => b
  | VNum literal => negb (number_is_zero literal)
  | VStr s => negb (String.eqb s "")
  | VArr _ | VObj _ => true
  end.

(** [k in o] for a property name that is neither inherited nor an array
    index: a [TypeError] when [o] is not an object. *)
Definition has_property (k : string) (o : value) : result bool :=
  match o with
  | VObj props => Ok (bool_decide (is_Some (lookup_prop k props)))
  | VArr _ => Ok false
  | _ => Throw TypeError
  end.

(** What the page renders: the loader, or the page proper with the carousel
    over [relatedArticles] and the rich text of [content]. *)
Inductive rendering : Type :=
| BlogItemPostPageLoader
| Page (relatedArticles content : value).

(** The [content] and [relatedArticles] the page reads off its article. *)
Definition article_parts (article : value) : result (value * value) :=
  attributes ← get article "attributes";
  let articleAttributes := if to_boolean attributes then attributes else VObj [] in
  hasContent ← has_property "content" articleAttributes;
  let content := if hasContent : bool then field articleAttributes "content"
                 else VUndefined in
  hasRelated ← has_property "relatedArticles" articleAttributes;
  let relatedArticles := if hasRelated : bool then field articleAttributes "relatedArticles"
                         else VArr [] in
  mret (content, relatedArticles).

(** The render of [BlogItemPostPage]. *)
Definition BlogItemPostPage (article : value) : result rendering :=
  parts ← article_parts article;
  let content := parts.1 in
  let relatedArticles := parts.2 in
  if to_boolean content then mret (Page relatedArticles content)
  else mret BlogItemPostPageLoader.

(** The timeout callback of its effect: fades the page in once there is
    content and the wrapper is mounted.  [opacity] holds [style.opacity] of
    the elements that have one set. *)
Definition reveal (content : value) (ref_current : option element)
    (opacity : gmap element string) : gmap element string :=
  if negb (to_boolean content) || negb (bool_decide (is_Some ref_current))
  then opacity
  else match ref_current with
       | Some div => <[div := "1"]> opacity
       | None => opacity
       end.

End Article.

(** ** Loading of the image element *)

Module Loading.

(** A caller's callback, by reference. *)
Abbreviation handler := nat.

(** The [img] element as the handlers observe it. *)
Record image : Type := {
  src : string;
  (** [img['data-loaded-src']] *)
  data_loaded_src : option string;
  (** ['decode' in img] *)
  decodable : bool;
  (** the parent element, by the [position] of its computed style *)
  parentElement : option string;
  isConnected : bool;
  complete : bool;
  (** [img.complete] once [img.src] has been assigned again *)
  complete_reassigned : bool;
  (** [getAttribute('data-nimg')], [getAttribute('alt')] *)
  data_nimg : option string;
  alt : option string;
  (** [getBoundingClientRect().width / window.innerWidth < 0.6] *)
  narrow : bool;
  height : N;
  width : N;
  (** [getAttribute('height')], [getAttribute('width')] *)
  height_attribute : option string;
  width_attribute : option string;
}.

(** What the handlers do to the outside, in order. *)
Inductive effect : Type :=
| Decode
| SetBlurComplete (b : bool)
| SetShowAltText (b : bool)
| OnLoad (h : handler)
| OnLoadingComplete (h : handler)
| OnError (h : handler)
| AssignSrc (s : string)
| WarnOnce (message : string)
| ConsoleError (message : string).

(** A [then] callback waiting for the decode promise to settle, with what it
    closed over. *)
Record decoding : Type := {
  placeholder : string;
  loaded_src : string;
  unoptimized : bool;
  sizesInput : option string;
}.

Record page : Type := {
  img : image;
  (** [onLoadRef.current], [onLoadingCompleteRef.current] *)
  onLoadRef : option handler;
  onLoadingCompleteRef : option handler;
  (** callbacks not yet run, oldest first *)
  pending : list decoding;
  (** effects so far, oldest first *)
  effects : list effect;
}.

(** What [ImageElement] is rendered with, as far as its handlers read it. *)
Record props : Type := {
  props_src : option string;
  props_placeholder : string;
  props_unoptimized : bool;
  props_sizesInput : option string;
  props_onError : option handler;
}.

Definition emit (e : effect) (w : page) : page :=
  {| img := img w;
     onLoadRef := onLoadRef w;
     onLoadingCompleteRef := onLoadingCompleteRef w;
     pending := pending w;
     effects := effects w ++ [e] |}.

Definition set_data_loaded_src (s : option string) (w : page) : page :=
  {| img := {| src := src (img w);
               data_loaded_src := s;
               decodable := decodable (img w);
               parentElement := parentElement (img w);
               isConnected := isConnected (img w);
               complete := complete (img w);
               complete_reassigned := complete_reassigned (img w);
               data_nimg := data_nimg (img w);
               alt := alt (img w);
               narrow := narrow (img w);
               height := height (img w);
               width := width (img w);
               height_attribute := height_attribute (img w);
               width_attribute := width_attribute (img w) |};
     onLoadRef := onLoadRef w;
     onLoadingCompleteRef := onLoadingCompleteRef w;
     pending := pending w;
     effects := effects w |}.

Definition schedule (d : decoding) (w : page) : page :=
  {| img := img w;
     onLoadRef := onLoadRef w;
     onLoadingCompleteRef := onLoadingCompleteRef w;
     pending := pending w ++ [d];
     effects := effects w |}.

Definition set_pending (l : list decoding) (w : page) : page :=
  {| img := img w;
     onLoadRef := onLoadRef w;
     onLoadingCompleteRef := onLoadingCompleteRef w;
     pending := l;
     effects := effects w |}.

(** The effects of [NextImage] that keep the refs current:
    [onLoadRef.current = onLoad] and
    [onLoadingCompleteRef.current = onLoadingComplete]. *)
Definition sync_onLoadRef (onLoad : option handler) (w : page) : page :=
  {| img := img w;
     onLoadRef := onLoad;
     onLoadingCompleteRef := onLoadingCompleteRef w;
     pending := pending w;
     effects := effects w |}.

Definition sync_onLoadingCompleteRef (onLoadingComplete : option handler) (w : page) : page :=
  {| img := img w;
     onLoadRef := onLoadRef w;
     onLoadingCompleteRef := onLoadingComplete;
     pending := pending w;
     effects := effects w |}.

(** [if (c) { f }]. *)
Definition when (c : bool) (f : page -> page) (w : page) : page :=
  if c then f w else w.

(** A string in double quotes. *)
Definition quoted (s : string) : string := dquote +:+ s +:+ dquote.

(** *** Reading the effects *)

(** [w'] has the effects of [w] followed by effects that all satisfy [P]. *)
Definition emits (P : effect → Prop) (w w' : page) : Prop :=
  ∃ new, effects w' = (effects w ++ new)%list ∧ Forall P new.

(** The same, and nothing but the effects differs. *)
Definition grows (P : effect → Prop) (w w' : page) : Prop :=
  img w' = img w
  ∧ onLoadRef w' = onLoadRef w
  ∧ onLoadingCompleteRef w' = onLoadingCompleteRef w
  ∧ pending w' = pending w
  ∧ emits P w w'.

(** A call of [warnOnce]. *)
Definition is_warning (e : effect) : Prop := ∃ m, e = WarnOnce m.

(** Neither a warning nor a console error. *)
Definition silent (e : effect) : Prop :=
  (∀ m, e ≠ WarnOnce m) ∧ (∀ m, e ≠ ConsoleError m).

Section Handlers.

(** [process.env.NODE_ENV === 'production']. *)
Variable production : bool.

(** [new URL(src, 'http://n').searchParams.get('url')]. *)
Variable searchParams_url : string -> option string.

(** The checks of a development build once the image has loaded. *)
Definition development_checks (d : decoding) (w : page) : page :=
  let origSrc := default (loaded_src d) (truthy (searchParams_url (loaded_src d))) in
  let w :=
    when (bool_decide (data_nimg (img w) = Some "fill"))
      (fun w =>
         let w :=
           when (negb (unoptimized d)
                 && (bool_decide (truthy (sizesInput d) = None)
                     || bool_decide (sizesInput d = Some "100vw")))
             (when (narrow (img w))
                (fun w =>
                   if bool_decide (sizesInput d = Some "100vw")
                   then emit (WarnOnce
                     ("Image with src " +:+ quoted origSrc +:+ " has " +:+ quoted "fill"
                      +:+ " prop and " +:+ quoted "sizes" +:+ " prop of " +:+ quoted "100vw"
                      +:+ ", but image is not rendered at full viewport width. Please adjust "
                      +:+ quoted "sizes"
                      +:+ " to improve page performance. Read more: https://nextjs.org/docs/api-reference/next/image#sizes")) w
                   else emit (WarnOnce
                     ("Image with src " +:+ quoted origSrc +:+ " has " +:+ quoted "fill"
                      +:+ " but is missing " +:+ quoted "sizes"
                      +:+ " prop. Please add it to improve page performance. Read more: https://nextjs.org/docs/api-reference/next/image#sizes")) w)) w in
         let w :=
           match parentElement (img w) with
           | Some position =>
               when (negb (bool_decide (position ∈ ["absolute"; "fixed"; "relative"])))
                 (emit (WarnOnce
                    ("Image with src " +:+ quoted origSrc +:+ " has " +:+ quoted "fill"
                     +:+ " and parent element with invalid " +:+ quoted "position"
                     +:+ ". Provided " +:+ quoted position
                     +:+ " should be one of absolute,fixed,relative."))) w
           | None => w
           end in
         when (bool_decide (height (img w) = 0%N))
           (emit (WarnOnce
              ("Image with src " +:+ quoted origSrc +:+ " has " +:+ quoted "fill"
               +:+ " and a height value of 0. This is likely because the parent element of the image has not been styled to have a set height."))) w) w in
  let heightModified :=
    negb (bool_decide (Some (pretty (height (img w))) = height_attribute (img w))) in
  let widthModified :=
    negb (bool_decide (Some (pretty (width (img w))) = width_attribute (img w))) in
  when ((heightModified && negb widthModified) || (negb heightModified && widthModified))
    (emit (WarnOnce
       ("Image with src " +:+ quoted origSrc
        +:+ " has either width or height modified, but not the other. If you use CSS to change the size of your image, also include the styles 'width: "
        +:+ quoted "auto" +:+ "' or 'height: " +:+ quoted "auto"
        +:+ "' to maintain the aspect ratio."))) w.

(** The [then] callback of [handleLoading], run once the decode promise has
    settled, fulfilled or rejected. *)
Definition decoded (d : decoding) (w : page) : page :=
  if negb (bool_decide (is_Some (parentElement (img w)))) || negb (isConnected (img w))
  then w
  else
    let w := when (negb (String.eqb (placeholder d) "empty")) (emit (SetBlurComplete true)) w in
    let w := match onLoadRef w with
             | Some h => emit (OnLoad h) w
             | None => w
             end in
    let w := match onLoadingCompleteRef w with
             | Some h => emit (OnLoadingComplete h) w
             | None => w
             end in
    when (negb production) (development_checks d) w.

(** [handleLoading]; the refs and the blur setter it receives are those of
    the page. *)
Definition handleLoading (target : option unit) (placeholder : string)
    (unoptimized : bool) (sizesInput : option string) (w : page) : page :=
  match target with
  | None => w
  | Some _ =>
      let src := src (img w) in
      if bool_decide (data_loaded_src (img w) = Some src) then w
      else
        let w := set_data_loaded_src (Some src) w in
        let w := when (decodable (img w)) (emit Decode) w in
        schedule {| placeholder := placeholder;
                    loaded_src := src;
                    unoptimized := unoptimized;
                    sizesInput := sizesInput |} w
  end.

(** The ref callback of [ImageElement]. *)
Definition ownRef (p : props) (target : option unit) (w : page) : page :=
  match target with
  | None => w
  | Some _ =>
      let w := when (bool_decide (is_Some (props_onError p)))
                 (fun w => emit (AssignSrc (src (img w))) w) w in
      let w :=
        when (negb production)
          (fun w =>
             let w := when (bool_decide (truthy (props_src p) = None))
                        (emit (ConsoleError
                           ("Image is missing required " +:+ quoted "src" +:+ " property:"))) w in
             when (bool_decide (alt (img w) = None))
               (emit (ConsoleError
                  ("Image is missing required " +:+ quoted "alt"
                   +:+ " property. Please add Alternative Text to describe the image for screen readers and search engines."))) w) w in
      when (if bool_decide (is_Some (props_onError p))
            then complete_reassigned (img w) else complete (img w))
        (handleLoading target (props_placeholder p) (props_unoptimized p)
           (props_sizesInput p)) w
  end.

(** The [onLoad] and [onError] handlers of the rendered [img]. *)
Definition onLoad (p : props) (w : page) : page :=
  handleLoading (Some tt) (props_placeholder p) (props_unoptimized p)
    (props_sizesInput p) w.

Definition onError (p : props) (w : page) : page :=
  let w := emit (SetShowAltText true) w in
  let w := when (negb (String.eqb (props_placeholder p) "empty"))
             (emit (SetBlurComplete true)) w in
  match props_onError p with
  | Some h => emit (OnError h) w
  | None => w
  end.

(** What a settled decode may call. *)
Definition completion (d : decoding) (e : effect) : Prop :=
  (e = SetBlurComplete true ∧ placeholder d ≠ "empty")
  ∨ (∃ h, e = OnLoad h)
  ∨ (∃ h, e = OnLoadingComplete h)
  ∨ (is_warning e ∧ production = false).

(** What the ref callback does before it looks at [img.complete]. *)
Definition mounting (e : effect) : Prop :=
  (∃ s, e = AssignSrc s) ∨ ((∃ m, e = ConsoleError m) ∧ production = false).

(** The callbacks waiting on settled promises run, oldest first. *)
Definition settle (w : page) : page :=
  fold_left (fun w d => decoded d w) (pending w) (set_pending [] w).

End Handlers.

End Loading.

(** ** What [NextImage] renders *)

Module Element.

(** The value of a prop: data, a caller's function, or one of the values the
    components make themselves. *)
Inductive prop : Type :=
| Data (v : value)
| Function (h : nat)
| MergedRef (forwardedRef : prop)
| LoadHandler
| ErrorHandler.

(** A props object: its own string-keyed properties in insertion order. *)
Abbreviation object := (list (string * prop)).

Definition keys (o : object) : list string := o.*1.

Fixpoint lookup (k : string) (o : object) : option prop :=
  match o with
  | [] => None
  | (k', v) :: rest => if String.eqb k k' then Some v else lookup k rest
  end.

(** [o.k]. *)
Definition read (o : object) (k : string) : prop :=
  default (Data VUndefined) (lookup k o).

(** [k: v] in an object literal: a property already there keeps its place. *)
Fixpoint assign (k : string) (v : prop) (o : object) : object :=
  match o with
  | [] => [(k, v)]
  | (k', v') :: rest =>
      if String.eqb k k' then (k, v) :: rest else (k', v') :: assign k v rest
  end.

(** The keys after [k] was assigned. *)
Definition with_key (k : string) (K : list string) : list string :=
  if existsb (String.eqb k) K then K else (K ++ [k])%list.

(** [...from] in an object literal that so far holds [o]. *)
Definition spread (from o : object) : object :=
  fold_left (fun acc kv => assign kv.1 kv.2 acc) from o.

(** The names [ImageElement] takes out of its props; the others are
    [rest]. *)
Definition named : list string :=
  ["src"; "srcSet"; "sizes"; "height"; "width"; "decoding"; "className"; "style";
   "fetchPriority"; "placeholder"; "loading"; "unoptimized"; "fill"; "onLoadRef";
   "onLoadingCompleteRef"; "setBlurComplete"; "setShowAltText"; "sizesInput";
   "onLoad"; "onError"].

Definition rest (props : object) : object :=
  filter (fun kv => kv.1 ∉ named) props.

(** The names React takes out of what an element is given. *)
Definition reserved : list string := ["key"; "ref"].

Definition without_reserved (given : object) : object :=
  filter (fun kv => kv.1 ∉ reserved) given.

Section Render.

Variable number_is_zero : string -> bool.

(** [Boolean(use)]: whether this React exports [use]. *)
Variable react_has_use : bool.

(** Whether this React DOM has [preload]. *)
Variable react_dom_has_preload : bool.

Definition truthy_prop (p : prop) : bool :=
  match p with
  | Data v => to_boolean number_is_zero v
  | _ => true
  end.

(** The key under which the fetch priority travels in this React. *)
Definition priority_key : string :=
  if react_has_use then "fetchPriority" else "fetchpriority".

Definition getDynamicProps (fetchPriority : prop) : object :=
  if react_has_use
  then [("fetchPriority", fetchPriority)]
  else [("fetchpriority", fetchPriority)].

(** An element of a component made with [forwardRef]: React keeps [key]
    and [ref] apart from the props, and the render function gets the props
    and, beside them, the [ref]. *)
Definition forwardRef {A : Type} (render : object -> prop -> A) (given : object) : A :=
  render (without_reserved given) (read given "ref").

(** The render function of [ImageElement]: the props it gives the [img]
    element. *)
Definition ImageElement_render (props : object) (forwardedRef : prop) : object :=
  let o := spread (rest props) [] in
  let o := spread (getDynamicProps (read props "fetchPriority")) o in
  let o := assign "loading" (read props "loading") o in
  let o := assign "width" (read props "width") o in
  let o := assign "height" (read props "height") o in
  let o := assign "decoding" (read props "decoding") o in
  let o := assign "data-nimg"
             (Data (VStr (if truthy_prop (read props "fill") then "fill" else "1"))) o in
  let o := assign "className" (read props "className") o in
  let o := assign "style" (read props "style") o in
  let o := assign "sizes" (read props "sizes") o in
  let o := assign "srcSet" (read props "srcSet") o in
  let o := assign "src" (read props "src") o in
  let o := assign "ref" (MergedRef forwardedRef) o in
  let o := assign "onLoad" LoadHandler o in
  assign "onError" ErrorHandler o.

Definition ImageElement : object -> object := forwardRef ImageElement_render.

(** [ImagePreload]: the arguments of the [ReactDOM.preload] call, if it is
    made. *)
Definition ImagePreload (imgAttributes : object) : option (prop * object) :=
  let opts := assign "as" (Data (VStr "image")) [] in
  let opts := assign "imageSrcSet" (read imgAttributes "srcSet") opts in
  let opts := assign "imageSizes" (read imgAttributes "sizes") opts in
  let opts := assign "crossOrigin" (read imgAttributes "crossOrigin") opts in
  let opts := assign "referrerPolicy" (read imgAttributes "referrerPolicy") opts in
  let opts := spread (getDynamicProps (read imgAttributes "fetchPriority")) opts in
  if react_dom_has_preload then Some (read imgAttributes "src", opts) else None.

(** What [getImgProps] reports besides the attributes. *)
Record meta : Type := {
  meta_unoptimized : prop;
  meta_placeholder : prop;
  meta_fill : prop;
  meta_priority : prop;
}.

(** The render of [NextImage], from what [getImgProps] returned and the ref
    forwarded to it: the props of the [img] element and the preload
    requested, if any. *)
Definition NextImage (imgAttributes : object) (imgMeta : meta) (props_sizes : prop)
    (refs : prop * prop) (setters : prop * prop) (forwardedRef : prop)
    : object * option (prop * object) :=
  let elementProps := spread imgAttributes [] in
  let elementProps := assign "unoptimized" (meta_unoptimized imgMeta) elementProps in
  let elementProps := assign "placeholder" (meta_placeholder imgMeta) elementProps in
  let elementProps := assign "fill" (meta_fill imgMeta) elementProps in
  let elementProps := assign "onLoadRef" refs.1 elementProps in
  let elementProps := assign "onLoadingCompleteRef" refs.2 elementProps in
  let elementProps := assign "setBlurComplete" setters.1 elementProps in
  let elementProps := assign "setShowAltText" setters.2 elementProps in
  let elementProps := assign "sizesInput" props_sizes elementProps in
  let elementProps := assign "ref" forwardedRef elementProps in
  (ImageElement elementProps,
   if truthy_prop (meta_priority imgMeta) then ImagePreload imgAttributes else None).

End Render.

End Element.

(** ** A small site

    Page A shows link 1 around image 3 and link 2 with no image; page B shows
    image 7 with the same source.  Elements are found by id and, on page B,
    by their [src] attribute. *)

Module Site.

Definition src_selector : string :=
  "[src=" +:+ dquote +:+ "/img/a.png" +:+ dquote +:+ "]".

Definition pageA : document :=
  Tabled.doc [("#img-3", 3)]
             [(1, [(".transitionable-img", 3)])]
             [(3, "http://x.io/img/a.png")]
             "http://x.io".

Definition pageB : document :=
  Tabled.doc [("#img-7", 7); (src_selector, 7)]
             []
             [(7, "http://x.io/img/a.png")]
             "http://x.io".

Definition link1 : link :=
  {| onClick := None;
     placeholderData := VObj [("title", VStr "first")];
     currentTarget := 1;
     location_state_key := Some "r1" |}.

Definition link2 : link :=
  {| onClick := None;
     placeholderData := VObj [("title", VStr "second")];
     currentTarget := 2;
     location_state_key := Some "r1" |}.

(** On page A, under router key [r1], nothing pending. *)
Definition onA : browser :=
  with_win (set_routerKey (Some "r1")) Tabled.fresh.

(** [onA] after a click on link 1. *)
Definition clickedA : browser :=
  {| win := {| __NRVT_routerKey := Some "r1";
               __NRVT_previousRouterKey := None;
               __NRVT_transitionImgSelector := Some "#img-3";
               __NRVT_transitionAttributeName := Some "src";
               __NRVT_transitionAttributeValue := Some "/img/a.png" |};
     sessionStorage := ∅;
     viewTransitionName := ∅;
     placeholder := VObj [("title", VStr "first")] |}.

(** [onA] with a selector stored for going back from [r2], which no longer
    resolves on page B. *)
Definition staleA : browser :=
  with_sessionStorage <[selector_key (Some "r2") (Some "r1") := "#gone"]> onA.

(** After the click on link 1 and the completion on page B under [r2]. *)
Definition visitedB : browser :=
  {| win := {| __NRVT_routerKey := Some "r2";
               __NRVT_previousRouterKey := Some "r1";
               __NRVT_transitionImgSelector := None;
               __NRVT_transitionAttributeName := Some "src";
               __NRVT_transitionAttributeValue := None |};
     sessionStorage :=
       <[selector_key (Some "r2") (Some "r1") := "#img-7"]>
         (<[selector_key (Some "r1") (Some "r2") := "#img-3"]> ∅);
     viewTransitionName := <[7 := transition_img_name]> ∅;
     placeholder := VObj [("title", VStr "first")] |}.


(** A source with a double quote in it, and the attribute selector made of
    it, which is no selector. *)
Definition quoted_src : string := "/img/a" +:+ dquote +:+ "b.png".

Definition broken_selector : string :=
  "[src=" +:+ dquote +:+ quoted_src +:+ dquote +:+ "]".

(** Page B as a document that rejects those strings asked of it which are
    no selectors. *)
Definition pageB_strict : document :=
  Tabled.strict [broken_selector; "!"]
                [("#img-7", 7); (src_selector, 7)]
                []
                [(7, "http://x.io/img/a.png")]
                "http://x.io".

(** [onA] with a marker whose value is [quoted_src]. *)
Definition quotedA : browser :=
  with_win (set_transitionAttributeValue (Some quoted_src))
    (with_win (set_transitionAttributeName (Some "src")) onA).

(** [onA] with an entry for going back from [r2] that is no selector. *)
Definition garbledA : browser :=
  with_sessionStorage <[selector_key (Some "r2") (Some "r1") := "!"]> onA.

(** A page with element 5 carrying the attribute [undefined="undefined"]. *)
Definition pageN : document :=
  Tabled.doc [("[undefined=" +:+ dquote +:+ "undefined" +:+ dquote +:+ "]", 5);
              ("#img-5", 5)]
             [] [] "http://x.io".


Definition articles : list value :=
  [VObj [("id", VNum "1");
         ("attributes",
          VObj [("title", VStr "One");
                ("slug", VStr "one");
                ("description", VStr "First article");
                ("headings", VArr [VStr "Intro"]);
                ("previewContent", VNull);
                ("thumbnail", VObj [("url", VStr "/img/a.png")])])]].

End Site.

(** ** Further samples *)

Module Samples.

Import Site.

(** [clickedA] with an entry of some other pair of keys in storage. *)
Definition keptA : browser :=
  with_sessionStorage <[selector_key (Some "r5") (Some "r6") := "#kept"]> clickedA.

(** A page with an image whose [src] attribute reads [undefined]. *)
Definition pageU : document :=
  Tabled.doc [("[src=" +:+ dquote +:+ "undefined" +:+ dquote +:+ "]", 9); ("#img-9", 9)]
             [] [] "http://x.io".

(** A page whose links hold images from another origin: image 4 names the
    page origin in its query, image 5 does not. *)
Definition pageC : document :=
  Tabled.doc []
             [(1, [(".transitionable-img", 4)]); (2, [(".transitionable-img", 5)])]
             [(4, "https://cdn.io/a.png?from=http://x.io");
              (5, "https://cdn.io/b.png")]
             "http://x.io".

Definition sizes : ImageConfig.imageConfig :=
  {| ImageConfig.deviceSizes := [1080; 640; 750]%Z;
     ImageConfig.imageSizes := [64; 16; 32]%Z;
     ImageConfig.qualities := Some [90; 75]%Z;
     ImageConfig.others := [("path", VStr "/_next/image")] |}.

Definition sizes_reordered : ImageConfig.imageConfig :=
  {| ImageConfig.deviceSizes := [640; 1080; 750]%Z;
     ImageConfig.imageSizes := [16; 64; 32]%Z;
     ImageConfig.qualities := Some [90; 75]%Z;
     ImageConfig.others := [("path", VStr "/_next/image")] |}.

(** The article made of the one entry of [articles] for the id printed as
    [id]. *)
Definition mock_article (id : string) : value :=
  VObj [("id", VNum "1");
        ("attributes",
         VObj [("description", VStr "First article");
               ("headings", VArr [VStr "Intro"]);
               ("previewContent", VNull);
               ("thumbnail", VObj [("url", VStr "/img/a.png")]);
               ("slug", VStr ("lorem-ipsum-" +:+ id));
               ("title", VStr ("Lorem ipsum " +:+ id))])].

(** Zero as the literal [0]. *)
Definition zero_literal (literal : string) : bool := String.eqb literal "0".

Definition listed_article : value :=
  VObj [("id", VNum "1");
        ("attributes", VObj [("title", VStr "One"); ("slug", VStr "one")])].

Definition full_article : value :=
  VObj [("id", VNum "1");
        ("attributes",
         VObj [("title", VStr "One");
               ("content", VArr [VStr "paragraph"])])].

Definition mounted_image : Loading.image :=
  {| Loading.src := "http://x.io/img/a.png";
     Loading.data_loaded_src := None;
     Loading.decodable := true;
     Loading.parentElement := Some "relative";
     Loading.isConnected := true;
     Loading.complete := true;
     Loading.complete_reassigned := false;
     Loading.data_nimg := Some "1";
     Loading.alt := Some "";
     Loading.narrow := false;
     Loading.height := 100;
     Loading.width := 200;
     Loading.height_attribute := Some "100";
     Loading.width_attribute := Some "200" |}.

Definition mounted : Loading.page :=
  {| Loading.img := mounted_image;
     Loading.onLoadRef := Some 1;
     Loading.onLoadingCompleteRef := None;
     Loading.pending := [];
     Loading.effects := [] |}.

(** The image gone from the document, one callback still waiting. *)
Definition unmounted : Loading.page :=
  {| Loading.img :=
       {| Loading.src := "http://x.io/img/a.png";
          Loading.data_loaded_src := Some "http://x.io/img/a.png";
          Loading.decodable := true;
          Loading.parentElement := None;
          Loading.isConnected := false;
          Loading.complete := true;
          Loading.complete_reassigned := false;
          Loading.data_nimg := Some "1";
          Loading.alt := Some "";
          Loading.narrow := false;
          Loading.height := 100;
          Loading.width := 200;
          Loading.height_attribute := Some "100";
          Loading.width_attribute := Some "200" |};
     Loading.onLoadRef := Some 1;
     Loading.onLoadingCompleteRef := Some 2;
     Loading.pending :=
       [{| Loading.placeholder := "blur";
           Loading.loaded_src := "http://x.io/img/a.png";
           Loading.unoptimized := false;
           Loading.sizesInput := None |}];
     Loading.effects := [Loading.Decode] |}.

Definition blurred : Loading.props :=
  {| Loading.props_src := Some "/img/a.png";
     Loading.props_placeholder := "blur";
     Loading.props_unoptimized := false;
     Loading.props_sizesInput := None;
     Loading.props_onError := None |}.

Definition no_url (_ : string) : option string := None.

Definition attributes : Element.object :=
  [("src", Element.Data (VStr "/img/a.png"));
   ("srcSet", Element.Data (VStr "/img/a.png 1x, /img/a@2x.png 2x"));
   ("sizes", Element.Data (VStr "100vw"));
   ("fetchPriority", Element.Data (VStr "high"));
   ("alt", Element.Data (VStr ""))].

Definition with_priority : Element.meta :=
  {| Element.meta_unoptimized := Element.Data (VBool false);
     Element.meta_placeholder := Element.Data (VStr "empty");
     Element.meta_fill := Element.Data (VBool false);
     Element.meta_priority := Element.Data (VBool true) |}.

End Samples.

(** * Properties *)

Section Completion.

Variable getElementSelector : document -> element -> option string.

(** A completion in the browser ends as [outcome] has it. *)
Lemma routeChangeComplete_run (routerKey : option string) (doc : document) (b : browser) :
  routeChangeComplete getElementSelector routerKey doc b
  = outcome getElementSelector routerKey doc b.
Proof.
  unfold routeChangeComplete, outcome, backward_lookup, marker_lookup, persisted,
    forwardKey, backwardKey, previousKey, query.
  unfold mbind, M_bind, mret, M_ret, gets, modify, getItem, setItem,
    cleanUpTransition, document_querySelector, ask, query. cbn.
  destruct (truthy (__NRVT_transitionImgSelector (win b))) as [sel|]; cbn;
    (destruct (truthy (_ !! _)) as [s|]; cbn;
     [destruct (malformed doc s); cbn; [reflexivity|];
      destruct (querySelector doc s) as [el|]; cbn; [reflexivity|]|];
     (destruct (malformed doc _); cbn; [reflexivity|];
      destruct (querySelector doc _) as [el|]; cbn; reflexivity)).
Qed.

Lemma handleRouteChangeComplete_client (routerKey : option string) (doc : document)
    (b : browser) :
  handleRouteChangeComplete getElementSelector routerKey doc (Client b)
  = ((outcome getElementSelector routerKey doc b).1,
     Client (outcome getElementSelector routerKey doc b).2).
Proof.
  unfold handleRouteChangeComplete. rewrite routeChangeComplete_run.
  now destruct (outcome getElementSelector routerKey doc b).
Qed.

(** What a completion returned, read off [outcome]. *)
Lemma handleRouteChangeComplete_inv (routerKey : option string) (doc : document)
    (b b' : browser) (r : result unit) :
  handleRouteChangeComplete getElementSelector routerKey doc (Client b) = (r, Client b') →
  r = (outcome getElementSelector routerKey doc b).1
  ∧ b' = (outcome getElementSelector routerKey doc b).2.
Proof.
  rewrite handleRouteChangeComplete_client. intros [= <- <-]. now split.
Qed.

Lemma query_error (doc : document) (sel : string) (e : error) :
  query doc sel = Throw e → e = SyntaxError ∧ malformed doc sel = true.
Proof.
  unfold query. destruct (malformed doc sel); [|discriminate].
  intros [= <-]. now split.
Qed.

Lemma query_malformed (doc : document) (sel : string) :
  query doc sel = Throw SyntaxError ↔ malformed doc sel = true.
Proof.
  unfold query. destruct (malformed doc sel); split; congruence.
Qed.

Lemma backward_lookup_error (routerKey : option string) (doc : document) (b : browser)
    (e : error) :
  backward_lookup routerKey doc b = Throw e → e = SyntaxError.
Proof.
  unfold backward_lookup.
  destruct (truthy _) as [sel|]; [|discriminate].
  intros H. now apply query_error in H.
Qed.

Lemma backward_lookup_throws (routerKey : option string) (doc : document) (b : browser) :
  backward_lookup routerKey doc b = Throw SyntaxError
  ↔ ∃ sel, truthy (sessionStorage (persisted routerKey b) !! backwardKey routerKey b)
           = Some sel
           ∧ malformed doc sel = true.
Proof.
  unfold backward_lookup.
  destruct (truthy _) as [sel|].
  - rewrite query_malformed. split; [eauto|]. now intros (s & [= <-] & H).
  - split; [discriminate|]. now intros (s & [=] & _).
Qed.

Lemma default_truthy (x : option string) : default "" (truthy x) = default "" x.
Proof.
  destruct x as [s|]; cbn; [|reflexivity].
  destruct (String.eqb_spec s ""); cbn; congruence.
Qed.

Lemma lookup_marked (el el' : element) (n : string) :
  (<[el := transition_img_name]> (∅ : gmap element string)) !! el' = Some n
  ↔ el' = el ∧ n = transition_img_name.
Proof.
  rewrite lookup_insert_Some, lookup_empty. split.
  - intros [[<- <-]|[_ [=]]]. now split.
  - intros [-> ->]. now left.
Qed.

(** C3: a completion reads session storage under the key made of the new
    key followed by the previous one; when the selector stored there
    resolves to a live element, that element alone gets the transition name
    and nothing is stored for the marker; an element is named through the
    marker only when that lookup yields no live element.  A completion
    that throws names no element. *)
Theorem backward_lookup_takes_precedence (routerKey : option string) (doc : document)
    (b : browser) :
  (∀ sel el,
      truthy (sessionStorage (persisted routerKey b)
                !! selector_key routerKey (__NRVT_routerKey (win b))) = Some sel →
      query doc sel = Ok (Some el) →
      handleRouteChangeComplete getElementSelector routerKey doc (Client b)
      = (Ok tt, Client (settled (marked el (persisted routerKey b)))))
  ∧ (∀ b' el,
      handleRouteChangeComplete getElementSelector routerKey doc (Client b)
      = (Ok tt, Client b') →
      is_Some (viewTransitionName b' !! el) →
      backward_lookup routerKey doc b = Ok (Some el)
      ∨ (backward_lookup routerKey doc b = Ok None ∧ marker_lookup doc b = Ok (Some el)))
  ∧ (∀ e b',
      handleRouteChangeComplete getElementSelector routerKey doc (Client b)
      = (Throw e, Client b') →
      viewTransitionName b' = viewTransitionName b ∨ viewTransitionName b' = ∅).
Proof.
  split; [|split].
  - intros sel el Hsel Hel. rewrite handleRouteChangeComplete_client.
    unfold outcome, backward_lookup, backwardKey, previousKey.
    now rewrite Hsel, Hel.
  - intros b' el H [n Hn]. apply handleRouteChangeComplete_inv in H as [Hr ->].
    revert Hr Hn. unfold outcome.
    destruct (backward_lookup routerKey doc b) as [[e|]|err];
      [|destruct (marker_lookup doc b) as [[e|]|err]|]; cbn; try discriminate.
    + intros _. rewrite lookup_marked. intros [-> _]. now left.
    + intros _. rewrite lookup_marked. intros [-> _]. now right.
  - intros e b' H. apply handleRouteChangeComplete_inv in H as [Hr ->].
    revert Hr. unfold outcome, persisted.
    destruct (backward_lookup routerKey doc b) as [[el|]|err];
      [|destruct (marker_lookup doc b) as [[el|]|err]|]; cbn; try discriminate;
      intros _; destruct (truthy (__NRVT_transitionImgSelector (win b))); cbn; auto.
Qed.

(** C4: a non-empty transient selector is written to session storage under
    the key made of the previous key followed by the new one, and the slot
    is cleared; with an empty slot nothing is written for it and the slot
    stays as it was.  The only other write a completion can make is the one
    under the backward key.  All of this happens before the first query, so
    it holds of a completion that throws as well. *)
Theorem transient_selector_persisted (routerKey : option string) (doc : document)
    (b : browser) :
  let fwd := selector_key (__NRVT_routerKey (win b)) routerKey in
  let back := selector_key routerKey (__NRVT_routerKey (win b)) in
  ∃ r b',
    handleRouteChangeComplete getElementSelector routerKey doc (Client b) = (r, Client b')
    ∧ (∀ sel, truthy (__NRVT_transitionImgSelector (win b)) = Some sel →
         __NRVT_transitionImgSelector (win b') = None
         ∧ (sessionStorage b' = <[fwd := sel]> (sessionStorage b)
            ∨ ∃ s, sessionStorage b' = <[back := s]> (<[fwd := sel]> (sessionStorage b)))
         ∧ (fwd ≠ back → sessionStorage b' !! fwd = Some sel))
    ∧ (truthy (__NRVT_transitionImgSelector (win b)) = None →
         __NRVT_transitionImgSelector (win b') = __NRVT_transitionImgSelector (win b)
         ∧ (sessionStorage b' = sessionStorage b
            ∨ ∃ s, sessionStorage b' = <[back := s]> (sessionStorage b))
         ∧ (fwd ≠ back → sessionStorage b' !! fwd = sessionStorage b !! fwd)).
Proof.
  intros fwd back. do 2 eexists. split; [apply handleRouteChangeComplete_client|].
  unfold outcome, persisted, forwardKey, backwardKey, previousKey.
  fold fwd back.
  split.
  - intros sel ->.
    destruct (backward_lookup routerKey doc b) as [[e|]|err];
      [|destruct (marker_lookup doc b) as [[e|]|err]|]; cbn;
      (split; [reflexivity|]);
      try (split; [now left|]; intros _; apply lookup_insert_eq).
    split; [right; eauto|].
    intros Hne. rewrite lookup_insert_ne by congruence. apply lookup_insert_eq.
  - intros ->.
    destruct (backward_lookup routerKey doc b) as [[e|]|err];
      [|destruct (marker_lookup doc b) as [[e|]|err]|]; cbn;
      (split; [reflexivity|]);
      try (split; [now left|]; reflexivity).
    split; [right; eauto|].
    intros Hne. now rewrite lookup_insert_ne by congruence.
Qed.

(** C2, as the code has it: when the backward lookup yields no live
    element and the pending marker matches an element of the fresh
    document, that element alone gets the transition name, and its computed
    selector (the empty string when there is none) is stored under the key
    made of the new key followed by the previous one, the key the backward
    lookup reads. *)
Theorem marker_match_stored_under_backward_key (routerKey : option string)
    (doc : document) (b : browser) (el : element) :
  backward_lookup routerKey doc b = Ok None →
  marker_lookup doc b = Ok (Some el) →
  ∃ b', handleRouteChangeComplete getElementSelector routerKey doc (Client b)
        = (Ok tt, Client b')
    ∧ viewTransitionName b' = {[ el := transition_img_name ]}
    ∧ sessionStorage b'
      = <[selector_key routerKey (__NRVT_routerKey (win b))
            := default "" (getElementSelector doc el)]>
          (sessionStorage (persisted routerKey b)).
Proof.
  intros Hback Hmark. eexists. rewrite handleRouteChangeComplete_client.
  unfold outcome. rewrite Hback, Hmark. cbn. rewrite default_truthy.
  split; [reflexivity|]. split; reflexivity.
Qed.

(** C5, as the code has it: the marker's attribute value is cleared by the
    last statement of a completion, so it is cleared whenever the
    completion returns, whether or not an element was named, and it stays
    as it was when a query throws; the attribute name is kept either way.
    The marker present when the completion starts is the one looked up
    whenever the backward lookup yields no live element. *)
Theorem marker_value_cleared_at_end (routerKey : option string) (doc : document)
    (b : browser) :
  ∃ r b',
    handleRouteChangeComplete getElementSelector routerKey doc (Client b) = (r, Client b')
    ∧ __NRVT_transitionAttributeName (win b') = __NRVT_transitionAttributeName (win b)
    ∧ (r = Ok tt → __NRVT_transitionAttributeValue (win b') = None)
    ∧ (∀ e, r = Throw e →
            __NRVT_transitionAttributeValue (win b')
            = __NRVT_transitionAttributeValue (win b))
    ∧ (backward_lookup routerKey doc b = Ok None →
       r = Ok tt →
       ∀ el, is_Some (viewTransitionName b' !! el)
             ↔ query doc
                 (attribute_selector (__NRVT_transitionAttributeName (win b))
                                     (__NRVT_transitionAttributeValue (win b)))
               = Ok (Some el)).
Proof.
  do 2 eexists. split; [apply handleRouteChangeComplete_client|].
  unfold outcome, persisted.
  split; [|split; [|split]].
  - destruct (backward_lookup routerKey doc b) as [[e|]|err];
      [|destruct (marker_lookup doc b) as [[e|]|err]|];
      destruct (truthy (__NRVT_transitionImgSelector (win b))); reflexivity.
  - destruct (backward_lookup routerKey doc b) as [[e|]|err];
      [|destruct (marker_lookup doc b) as [[e|]|err]|]; cbn;
      solve [reflexivity | discriminate].
  - intros e'.
    destruct (backward_lookup routerKey doc b) as [[e|]|err];
      [|destruct (marker_lookup doc b) as [[e|]|err]|]; cbn; try discriminate;
      intros _; destruct (truthy (__NRVT_transitionImgSelector (win b))); reflexivity.
  - intros -> Hr el. revert Hr. fold (marker_lookup doc b).
    destruct (marker_lookup doc b) as [[e|]|err]; cbn; intros Hr.
    + split.
      * intros [n Hn]. apply lookup_marked in Hn as [-> _]. reflexivity.
      * intros [= ->]. exists transition_img_name. now apply lookup_marked.
    + rewrite lookup_empty. split; [intros [n [=]]|intros [=]].
    + discriminate.
Qed.

(** C7, as the code has it: a completion raises no error of its own.  On
    the server it returns at once.  In the browser it throws only the
    [SyntaxError] of [document.querySelector], exactly when the non-empty
    selector stored under the backward key is no selector or, the backward
    lookup having found nothing, the selector made of the marker is none.
    A missing session-storage entry, an empty one, and a stored selector
    that resolves to nothing count as a miss of the backward lookup; an
    absent marker is queried as [[undefined="undefined"]]; when that query
    finds nothing either, no element carries a transition name afterwards
    and nothing is stored for the marker. *)
Theorem completion_throws_only_syntax_error (routerKey : option string) (doc : document) :
  handleRouteChangeComplete getElementSelector routerKey doc Server = (Ok tt, Server)
  ∧ (∀ b, ∃ r b',
       handleRouteChangeComplete getElementSelector routerKey doc (Client b)
       = (r, Client b')
       ∧ (r = Ok tt ∨ r = Throw SyntaxError)
       ∧ (r = Throw SyntaxError
          ↔ (∃ sel, truthy (sessionStorage (persisted routerKey b)
                              !! backwardKey routerKey b) = Some sel
                    ∧ malformed doc sel = true)
            ∨ (backward_lookup routerKey doc b = Ok None
               ∧ malformed doc
                   (attribute_selector (__NRVT_transitionAttributeName (win b))
                                       (__NRVT_transitionAttributeValue (win b)))
                 = true)))
  ∧ (∀ b, sessionStorage (persisted routerKey b) !! backwardKey routerKey b = None →
          backward_lookup routerKey doc b = Ok None)
  ∧ (∀ b, sessionStorage (persisted routerKey b) !! backwardKey routerKey b = Some "" →
          backward_lookup routerKey doc b = Ok None)
  ∧ (∀ b sel, sessionStorage (persisted routerKey b) !! backwardKey routerKey b = Some sel →
              query doc sel = Ok None →
              backward_lookup routerKey doc b = Ok None)
  ∧ (∀ b, __NRVT_transitionAttributeName (win b) = None →
          __NRVT_transitionAttributeValue (win b) = None →
          marker_lookup doc b
          = query doc ("[undefined=" +:+ dquote +:+ "undefined" +:+ dquote +:+ "]"))
  ∧ (∀ b, backward_lookup routerKey doc b = Ok None →
          marker_lookup doc b = Ok None →
          ∃ b', handleRouteChangeComplete getElementSelector routerKey doc (Client b)
                = (Ok tt, Client b')
            ∧ viewTransitionName b' = ∅
            ∧ sessionStorage b' = sessionStorage (persisted routerKey b)).
Proof.
  split; [reflexivity|]. split; [|split; [|split; [|split; [|split]]]].
  - intros b. do 2 eexists. split; [apply handleRouteChangeComplete_client|].
    rewrite <- backward_lookup_throws, <- query_malformed.
    fold (marker_lookup doc b). unfold outcome.
    destruct (backward_lookup routerKey doc b) as [[e|]|err] eqn:Hb;
      [|destruct (marker_lookup doc b) as [[e|]|err] eqn:Hm|]; cbn.
    + split; [now left|]. split; [discriminate|]. intros [[=]|[[=] _]].
    + split; [now left|]. split; [discriminate|]. intros [[=]|[_ [=]]].
    + split; [now left|]. split; [discriminate|]. intros [[=]|[_ [=]]].
    + apply query_error in Hm as [-> _].
      split; [now right|]. split; [|reflexivity]. intros _. right. now split.
    + apply backward_lookup_error in Hb as ->.
      split; [now right|]. split; [|reflexivity]. intros _. now left.
  - intros b H. unfold backward_lookup. now rewrite H.
  - intros b H. unfold backward_lookup. now rewrite H.
  - intros b sel H Hq. unfold backward_lookup. rewrite H. cbn.
    destruct (String.eqb sel ""); [reflexivity|exact Hq].
  - intros b Hn Hv. unfold marker_lookup. now rewrite Hn, Hv.
  - intros b Hback Hmark. eexists. rewrite handleRouteChangeComplete_client.
    unfold outcome. rewrite Hback, Hmark. split; [reflexivity|]. split; reflexivity.
Qed.

End Completion.

Section Clicks.

Variable getElementSelector : document -> element -> option string.

Lemma handleClick_run (l : link) (doc : document) (b : browser) :
  handleClick getElementSelector l doc b
  = match run_onClick l doc b with
    | (Ok _, b1) => (Ok tt, click_outcome getElementSelector l doc b1)
    | (Throw e, b1) => (Throw e, b1)
    end.
Proof.
  unfold handleClick, click_outcome, clicked_image. fold (run_onClick l).
  unfold mbind at 1. unfold M_bind at 1.
  destruct (run_onClick l doc b) as [[[]|e] b1]; [|reflexivity].
  unfold mbind, M_bind, mret, M_ret, setPlaceholderData, modify, ask,
    handleTransitionStarted. cbn.
  destruct (elementQuerySelector doc (currentTarget l) ".transitionable-img") as [el|]; cbn.
  - reflexivity.
  - destruct (querySelector doc "#transition-img") as [el|]; cbn; reflexivity.
Qed.

Lemma handleClick_Ok (l : link) (doc : document) (b b' : browser) :
  handleClick getElementSelector l doc b = (Ok tt, b') →
  ∃ b1, run_onClick l doc b = (Ok tt, b1)
        ∧ b' = click_outcome getElementSelector l doc b1.
Proof.
  rewrite handleClick_run.
  destruct (run_onClick l doc b) as [[[]|e] b1]; [|discriminate].
  intros [= <-]. now exists b1.
Qed.

Lemma click_outcome_placeholder (l : link) (doc : document) (b : browser) :
  placeholder (click_outcome getElementSelector l doc b) = placeholderData l.
Proof. reflexivity. Qed.

Lemma click_outcome_marker (l : link) (doc : document) (b : browser) (el : element) :
  clicked_image doc l = Some el →
  marker_state (click_outcome getElementSelector l doc b)
  = (getElementSelector doc el, Some "src",
     Some (replace_first (location_origin doc) (img_src doc el))).
Proof.
  intros H. unfold click_outcome. now rewrite H.
Qed.

Lemma click_outcome_no_image (l : link) (doc : document) (b : browser) :
  clicked_image doc l = None →
  marker_state (click_outcome getElementSelector l doc b) = (None, Some "src", Some "").
Proof.
  intros H. unfold click_outcome. now rewrite H.
Qed.

End Clicks.

Section Navigation.

Variable getElementSelector : document -> element -> option string.

Lemma outcome_routerKey (routerKey : option string) (doc : document) (b : browser) :
  __NRVT_routerKey (win (outcome getElementSelector routerKey doc b).2) = routerKey.
Proof.
  unfold outcome, persisted.
  destruct (backward_lookup routerKey doc b) as [[e|]|err];
    [|destruct (marker_lookup doc b) as [[e|]|err]|];
    destruct (truthy (__NRVT_transitionImgSelector (win b))); reflexivity.
Qed.



Lemma truthy_nonempty (sel : string) : sel ≠ "" → truthy (Some sel) = Some sel.
Proof.
  intros H. cbn. destruct (String.eqb_spec sel ""); congruence.
Qed.



(** C9: after two clicks in the same document the placeholder slot, the
    marker and the recorded selector are those of the second click alone:
    the data of the second link, the attribute [src], as value the source
    of the image the second click found, stripped of the origin, or the
    empty string when it found none, and the selector of that image. *)
Theorem last_click_wins (l1 l2 : link) (doc : document) (b b1 b2 b2' : browser) :
  handleClick getElementSelector l1 doc b = (Ok tt, b1) →
  handleClick getElementSelector l2 doc b1 = (Ok tt, b2) →
  handleClick getElementSelector l2 doc b = (Ok tt, b2') →
  placeholder b2 = placeholderData l2
  ∧ placeholder b2 = placeholder b2'
  ∧ marker_state b2 = marker_state b2'
  ∧ marker_state b2
    = (match clicked_image doc l2 with
       | Some el => getElementSelector doc el
       | None => None
       end,
       Some "src",
       Some match clicked_image doc l2 with
            | Some el => replace_first (location_origin doc) (img_src doc el)
            | None => ""
            end).
Proof.
  intros _ H2 H2'.
  apply handleClick_Ok in H2 as (c & _ & ->).
  apply handleClick_Ok in H2' as (c' & _ & ->).
  repeat split; reflexivity.
Qed.

End Navigation.

(** ** Storage keys *)

Lemma append_cancel_l (p x y : string) : p +:+ x = p +:+ y → x = y.
Proof.
  induction p as [|c p IH]; cbn; [auto|].
  intros [= H]. auto.
Qed.

Lemma first_hyphen_unique (x x' y y' : string) :
  hyphen_free x = true →
  hyphen_free x' = true →
  x +:+ "-" +:+ y = x' +:+ "-" +:+ y' →
  x = x'.
Proof.
  revert x'. induction x as [|c x IH]; intros [|c' x'] Hx Hx'; cbn in *.
  - reflexivity.
  - intros [= <- _]. discriminate.
  - intros [= -> _]. discriminate.
  - intros [= <- H]. f_equal.
    apply andb_prop in Hx as [_ Hx]. apply andb_prop in Hx' as [_ Hx'].
    eauto.
Qed.

(** C6, as it holds: for two router keys that render differently and
    contain no ['-'], the key the forward leg stores under differs from the
    key the backward lookup reads. *)
Theorem forward_backward_keys_differ (prev curr : option string) :
  hyphen_free (show prev) = true →
  hyphen_free (show curr) = true →
  show prev ≠ show curr →
  selector_key prev curr ≠ selector_key curr prev.
Proof.
  intros Hp Hc Hne Heq. unfold selector_key in Heq.
  apply append_cancel_l in Heq.
  apply first_hyphen_unique in Heq; auto.
Qed.

(** ** Mock articles *)

(** C10: when the table has an object with an [attributes] object at index
    [origId mod 20], the result is that entry with [attributes] replaced:
    [description], [headings], [previewContent] and [thumbnail] as in the
    entry, [slug] and [title] made from [origId] as the template literal
    prints it, which for a safe integer is its decimal digits; so any
    [origId'] with the same remainder gives the same result up to [slug] and
    [title]. *)
Theorem getMockArticleList_entry (articlesList : list value) (beyond_safe : N -> string)
    (origId : N) (props : list (string * value)) (attrs : value) :
  let result_for (n : N) :=
    VObj (set_prop "attributes"
            (VObj [("description", field attrs "description");
                   ("headings", field attrs "headings");
                   ("previewContent", field attrs "previewContent");
                   ("thumbnail", field attrs "thumbnail");
                   ("slug", VStr ("lorem-ipsum-" +:+ Number_toString beyond_safe n));
                   ("title", VStr ("Lorem ipsum " +:+ Number_toString beyond_safe n))])
            props) in
  articlesList !! N.to_nat (origId mod 20) = Some (VObj props) →
  lookup_prop "attributes" props = Some attrs →
  attrs ≠ VUndefined →
  attrs ≠ VNull →
  getMockArticleList articlesList beyond_safe origId = Ok (result_for origId)
  ∧ (∀ origId', (origId' mod 20 = origId mod 20)%N →
                getMockArticleList articlesList beyond_safe origId'
                = Ok (result_for origId'))
  ∧ (∀ n, (n < 2 ^ 53)%N → Number_toString beyond_safe n = pretty n).
Proof.
  intros result_for Hentry Hattrs Hu Hn.
  assert (H : ∀ n, (n mod 20 = origId mod 20)%N →
                   getMockArticleList articlesList beyond_safe n = Ok (result_for n)).
  { intros n Hmod. unfold getMockArticleList, index. rewrite Hmod, Hentry. cbn.
    rewrite Hattrs. cbn.
    destruct attrs; try congruence; reflexivity. }
  split; [now apply H|]. split; [exact H|].
  intros n Hlt. unfold Number_toString.
  apply N.ltb_lt in Hlt. now rewrite Hlt.
Qed.

(** * The properties on the small site *)

Section OnSite.

Import Site.

Local Abbreviation complete := (handleRouteChangeComplete Tabled.by_id).
Local Abbreviation click := (handleClick Tabled.by_id).

Lemma click_link1 : click link1 pageA onA = (Ok tt, clickedA).
Proof. vm_compute. reflexivity. Qed.


(** The selector of the element matched on page B is stored under [r2-r1];
    under [r1-r2] lies the selector recorded at the click. *)
Lemma marker_selector_not_under_forward_key :
  backward_lookup (Some "r2") pageB clickedA = Ok None
  ∧ marker_lookup pageB clickedA = Ok (Some 7)
  ∧ ∃ b', complete (Some "r2") pageB (Client clickedA) = (Ok tt, Client b')
      ∧ viewTransitionName b' !! 7 = Some transition_img_name
      ∧ sessionStorage b' !! selector_key (Some "r1") (Some "r2")
        ≠ Some (default "" (Tabled.by_id pageB 7))
      ∧ sessionStorage b' !! selector_key (Some "r2") (Some "r1")
        = Some (default "" (Tabled.by_id pageB 7)).
Proof.
  split; [vm_compute; reflexivity|]. split; [vm_compute; reflexivity|].
  eexists. split; [vm_compute; reflexivity|].
  split; [vm_compute; reflexivity|]. split; vm_compute; [discriminate|reflexivity].
Qed.

Lemma site_marker_selector_stored :
  ∃ b', complete (Some "r2") pageB (Client clickedA) = (Ok tt, Client b')
    ∧ viewTransitionName b' = {[ 7 := transition_img_name ]}
    ∧ sessionStorage b'
      = <[selector_key (Some "r2") (Some "r1") := "#img-7"]>
          (sessionStorage (persisted (Some "r2") clickedA)).
Proof.
  apply (marker_match_stored_under_backward_key Tabled.by_id (Some "r2") pageB clickedA 7).
  - vm_compute. reflexivity.
  - vm_compute. reflexivity.
Defined.

(** Going back from page B: the selector stored under [r1-r2] finds image 3,
    which is named; nothing else is. *)
Lemma site_backward_hit :
  complete (Some "r1") pageA (Client visitedB)
  = (Ok tt, Client (settled (marked 3 (persisted (Some "r1") visitedB))))
  ∧ (backward_lookup (Some "r1") pageA visitedB = Ok (Some 3)
     ∨ (backward_lookup (Some "r1") pageA visitedB = Ok None
        ∧ marker_lookup pageA visitedB = Ok (Some 3))).
Proof.
  destruct (backward_lookup_takes_precedence Tabled.by_id (Some "r1") pageA visitedB)
    as (Hhit & Honly & _).
  split.
  - apply (Hhit "#img-3" 3); vm_compute; reflexivity.
  - apply (Honly (outcome Tabled.by_id (Some "r1") pageA visitedB).2 3).
    + vm_compute. reflexivity.
    + exists transition_img_name. vm_compute. reflexivity.
Defined.

Lemma site_transient_persisted :
  (∃ r b', complete (Some "r2") pageB (Client clickedA) = (r, Client b')
     ∧ __NRVT_transitionImgSelector (win b') = None
     ∧ sessionStorage b' !! selector_key (Some "r1") (Some "r2") = Some "#img-3")
  ∧ (∃ r b', complete (Some "r2") pageB (Client onA) = (r, Client b')
     ∧ __NRVT_transitionImgSelector (win b') = None
     ∧ sessionStorage b' !! selector_key (Some "r1") (Some "r2") = None).
Proof.
  split.
  - destruct (transient_selector_persisted Tabled.by_id (Some "r2") pageB clickedA)
      as (r & b' & Hrun & Hsome & _).
    destruct (Hsome "#img-3") as (Hslot & _ & Hfwd); [reflexivity|].
    exists r, b'. split; [exact Hrun|]. split; [exact Hslot|].
    apply Hfwd. vm_compute. discriminate.
  - destruct (transient_selector_persisted Tabled.by_id (Some "r2") pageB onA)
      as (r & b' & Hrun & _ & Hnone).
    destruct Hnone as (Hslot & _ & Hfwd); [reflexivity|].
    exists r, b'. split; [exact Hrun|]. split; [exact Hslot|].
    transitivity (sessionStorage onA !! selector_key (Some "r1") (Some "r2")).
  + apply Hfwd. vm_compute. discriminate.
  + vm_compute. reflexivity.
Defined.

(** The marker pending when the completion starts decides which element is
    named: with it image 7 is named, with its value already cleared none
    is.  And a completion that throws leaves the value in place. *)
Lemma pending_marker_decides :
  (∃ b' b'',
     complete (Some "r2") pageB (Client clickedA) = (Ok tt, Client b')
     ∧ complete (Some "r2") pageB (Client (settled clickedA)) = (Ok tt, Client b'')
     ∧ viewTransitionName b' !! 7 = Some transition_img_name
     ∧ viewTransitionName b'' = ∅)
  ∧ ∃ b', complete (Some "r2") pageB_strict (Client quotedA)
          = (Throw SyntaxError, Client b')
      ∧ __NRVT_transitionAttributeValue (win b') = Some quoted_src.
Proof.
  split.
  - do 2 eexists. split; [vm_compute; reflexivity|].
    split; [vm_compute; reflexivity|].
    split; vm_compute; reflexivity.
  - eexists. split; vm_compute; reflexivity.
Qed.

Lemma site_marker_value_cleared :
  ∃ b', complete (Some "r2") pageB (Client clickedA) = (Ok tt, Client b')
    ∧ __NRVT_transitionAttributeValue (win b') = None
    ∧ __NRVT_transitionAttributeName (win b') = Some "src"
    ∧ is_Some (viewTransitionName b' !! 7).
Proof.
  destruct (marker_value_cleared_at_end Tabled.by_id (Some "r2") pageB clickedA)
    as (r & b' & Hrun & Hname & Hvalue & _ & Hmarked).
  assert (Hr : r = Ok tt).
  { apply (f_equal fst) in Hrun. vm_compute in Hrun. now symmetry. }
  subst r.
  exists b'. split; [exact Hrun|]. split; [now apply Hvalue|]. split; [exact Hname|].
  apply Hmarked; vm_compute; reflexivity.
Defined.

(** A selector that is none throws, stored under the backward key or made
    of the marker; and with no marker at all, the element of the page that
    carries the attribute [undefined="undefined"] is named. *)
Lemma completion_can_throw :
  (∃ b', complete (Some "r2") pageB_strict (Client garbledA)
         = (Throw SyntaxError, Client b'))
  ∧ (∃ b', complete (Some "r2") pageB_strict (Client quotedA)
           = (Throw SyntaxError, Client b'))
  ∧ marker_state Tabled.fresh = (None, None, None)
  ∧ ∃ b', complete (Some "r1") pageN (Client Tabled.fresh) = (Ok tt, Client b')
      ∧ viewTransitionName b' = {[ 5 := transition_img_name ]}.
Proof.
  split; [eexists; vm_compute; reflexivity|].
  split; [eexists; vm_compute; reflexivity|].
  split; [reflexivity|].
  eexists. split; vm_compute; reflexivity.
Qed.

(** A stale selector under [r2-r1] and a marker that matches nothing:
    the completion returns and nothing is named; on a page that rejects the
    stored string it throws. *)
Lemma site_stale_selector_is_a_miss :
  backward_lookup (Some "r2") pageB onA = Ok None
  ∧ (∃ b', complete (Some "r2") pageB (Client staleA) = (Ok tt, Client b')
       ∧ viewTransitionName b' = ∅
       ∧ sessionStorage b' = sessionStorage (persisted (Some "r2") staleA))
  ∧ ∃ r b', complete (Some "r2") pageB_strict (Client garbledA) = (r, Client b')
      ∧ r = Throw SyntaxError.
Proof.
  destruct (completion_throws_only_syntax_error Tabled.by_id (Some "r2") pageB)
    as (_ & _ & Hmissing & _ & Hstale & _ & Hmiss).
  split; [|split].
  - apply Hmissing. vm_compute. reflexivity.
  - apply Hmiss.
    + apply (Hstale staleA "#gone"); vm_compute; reflexivity.
    + vm_compute. reflexivity.
  - destruct (completion_throws_only_syntax_error Tabled.by_id (Some "r2") pageB_strict)
      as (_ & Hthrows & _).
    destruct (Hthrows garbledA) as (r & b' & Hrun & _ & Hiff).
    exists r, b'. split; [exact Hrun|]. apply Hiff. left. exists "!".
    split; vm_compute; reflexivity.
Defined.



(** Link 1 then link 2, which has no image: the state is that of link 2
    alone, with the empty marker. *)
Lemma site_second_click_wins :
  placeholder (click_outcome Tabled.by_id link2 pageA clickedA) = placeholderData link2
  ∧ marker_state (click_outcome Tabled.by_id link2 pageA clickedA)
    = marker_state (click_outcome Tabled.by_id link2 pageA onA)
  ∧ marker_state (click_outcome Tabled.by_id link2 pageA clickedA)
    = (None, Some "src", Some "").
Proof.
  destruct (last_click_wins Tabled.by_id link1 link2 pageA onA clickedA
              (click_outcome Tabled.by_id link2 pageA clickedA)
              (click_outcome Tabled.by_id link2 pageA onA))
    as (Hdata & _ & Hsame & Hmarker).
  - vm_compute. reflexivity.
  - vm_compute. reflexivity.
  - vm_compute. reflexivity.
  - split; [exact Hdata|]. split; [exact Hsame|exact Hmarker].
Defined.

(** Distinct keys can still collide when one contains ['-'], and a
    completion under the key already current stores and reads the same
    entry. *)
Lemma forward_backward_keys_collide :
  (Some "a" : option string) ≠ Some "a-a"
  ∧ selector_key (Some "a") (Some "a-a") = selector_key (Some "a-a") (Some "a")
  ∧ forwardKey (Some "r1") clickedA = backwardKey (Some "r1") clickedA
  ∧ sessionStorage clickedA = ∅
  ∧ backward_lookup (Some "r1") pageA clickedA = Ok (Some 3).
Proof.
  split; [discriminate|]. repeat split; vm_compute; reflexivity.
Qed.

Lemma site_keys_differ :
  selector_key (Some "r1") (Some "r2") ≠ selector_key (Some "r2") (Some "r1")
  ∧ selector_key None (Some "r1") ≠ selector_key (Some "r1") None.
Proof.
  split.
  - apply (forward_backward_keys_differ (Some "r1") (Some "r2"));
      [reflexivity|reflexivity|discriminate].
  - apply (forward_backward_keys_differ None (Some "r1"));
      [reflexivity|reflexivity|discriminate].
Defined.

(** What is printed for an integer that is not safe does not matter for the
    ids used here. *)
Local Abbreviation mock := (getMockArticleList articles (fun _ => "")).

Lemma site_mock_article :
  mock 20%N
  = Ok (VObj [("id", VNum "1");
              ("attributes",
               VObj [("description", VStr "First article");
                     ("headings", VArr [VStr "Intro"]);
                     ("previewContent", VNull);
                     ("thumbnail", VObj [("url", VStr "/img/a.png")]);
                     ("slug", VStr "lorem-ipsum-20");
                     ("title", VStr "Lorem ipsum 20")])])
  ∧ mock 40%N
    = Ok (VObj [("id", VNum "1");
                ("attributes",
                 VObj [("description", VStr "First article");
                       ("headings", VArr [VStr "Intro"]);
                       ("previewContent", VNull);
                       ("thumbnail", VObj [("url", VStr "/img/a.png")]);
                       ("slug", VStr "lorem-ipsum-40");
                       ("title", VStr "Lorem ipsum 40")])]).
Proof.
  destruct (getMockArticleList_entry articles (fun _ => "") 20
              [("id", VNum "1");
               ("attributes",
                VObj [("title", VStr "One");
                      ("slug", VStr "one");
                      ("description", VStr "First article");
                      ("headings", VArr [VStr "Intro"]);
                      ("previewContent", VNull);
                      ("thumbnail", VObj [("url", VStr "/img/a.png")])])]
              (VObj [("title", VStr "One");
                     ("slug", VStr "one");
                     ("description", VStr "First article");
                     ("headings", VArr [VStr "Intro"]);
                     ("previewContent", VNull);
                     ("thumbnail", VObj [("url", VStr "/img/a.png")])]))
    as (H20 & Hmod & _).
  - reflexivity.
  - reflexivity.
  - discriminate.
  - discriminate.
  - split; [exact H20|]. apply (Hmod 40%N). reflexivity.
Defined.

End OnSite.

(** * Further properties of the handlers *)

Section Storage.

Variable getElementSelector : document -> element -> option string.

Lemma outcome_storage_other (routerKey : option string) (doc : document) (b : browser)
    (key : string) :
  key ≠ forwardKey routerKey b →
  key ≠ backwardKey routerKey b →
  sessionStorage (outcome getElementSelector routerKey doc b).2 !! key
  = sessionStorage b !! key.
Proof.
  intros Hf Hb. unfold outcome, persisted.
  destruct (backward_lookup routerKey doc b) as [[e|]|err];
    [|destruct (marker_lookup doc b) as [[e|]|err]|];
    destruct (truthy (__NRVT_transitionImgSelector (win b))); cbn;
    rewrite ?lookup_insert_ne by congruence; reflexivity.
Qed.

Lemma outcome_storage_kept (routerKey : option string) (doc : document) (b : browser)
    (key : string) :
  is_Some (sessionStorage b !! key) →
  is_Some (sessionStorage (outcome getElementSelector routerKey doc b).2 !! key).
Proof.
  intros H. unfold outcome, persisted.
  destruct (backward_lookup routerKey doc b) as [[e|]|err];
    [|destruct (marker_lookup doc b) as [[e|]|err]|];
    destruct (truthy (__NRVT_transitionImgSelector (win b))); cbn;
    repeat (rewrite lookup_insert_is_Some'; right); exact H.
Qed.

Lemma outcome_slot_falsy (routerKey : option string) (doc : document) (b : browser) :
  truthy (__NRVT_transitionImgSelector
            (win (outcome getElementSelector routerKey doc b).2)) = None.
Proof.
  unfold outcome, persisted.
  destruct (backward_lookup routerKey doc b) as [[e|]|err];
    [|destruct (marker_lookup doc b) as [[e|]|err]|];
    destruct (truthy (__NRVT_transitionImgSelector (win b))) eqn:E; cbn; auto.
Qed.

Lemma outcome_value_cleared (routerKey : option string) (doc : document) (b : browser) :
  (outcome getElementSelector routerKey doc b).1 = Ok tt →
  __NRVT_transitionAttributeValue (win (outcome getElementSelector routerKey doc b).2)
  = None.
Proof.
  unfold outcome.
  destruct (backward_lookup routerKey doc b) as [[e|]|err];
    [|destruct (marker_lookup doc b) as [[e|]|err]|]; cbn;
    solve [reflexivity | discriminate].
Qed.

Lemma outcome_name_kept (routerKey : option string) (doc : document) (b : browser) :
  __NRVT_transitionAttributeName (win (outcome getElementSelector routerKey doc b).2)
  = __NRVT_transitionAttributeName (win b).
Proof.
  unfold outcome, persisted.
  destruct (backward_lookup routerKey doc b) as [[e|]|err];
    [|destruct (marker_lookup doc b) as [[e|]|err]|];
    destruct (truthy (__NRVT_transitionImgSelector (win b))); reflexivity.
Qed.

(** X1: a completion writes to session storage under at most two keys, the
    one made of the previous key followed by the new key and its mirror;
    every other entry reads as before, and no entry is ever removed,
    whether the completion returns or throws. *)
Theorem completion_touches_two_keys (routerKey : option string) (doc : document)
    (b b' : browser) (r : result unit) :
  handleRouteChangeComplete getElementSelector routerKey doc (Client b) = (r, Client b') →
  (∀ key, key ≠ selector_key (__NRVT_routerKey (win b)) routerKey →
          key ≠ selector_key routerKey (__NRVT_routerKey (win b)) →
          sessionStorage b' !! key = sessionStorage b !! key)
  ∧ (∀ key, is_Some (sessionStorage b !! key) → is_Some (sessionStorage b' !! key)).
Proof.
  intros H. apply handleRouteChangeComplete_inv in H as [_ ->]. split.
  - intros key Hf Hb. now apply outcome_storage_other.
  - intros key. apply outcome_storage_kept.
Qed.

(** X2: the selector stored for an element matched through the marker is
    read again when the same page is reached from the same neighbour.  The
    marker matches [t] on page B reached from key [keyA]; the user goes back to
    [keyA] and forward to [keyB] again: provided the stored selector is
    non-empty and still finds [t], [t] carries the transition name, however
    the completion on the way back ended. *)
Theorem forward_again_marks_matched_element
    (pageB pageA pageB' : document) (keyA keyB : option string)
    (b : browser) (t : element) (sel : string) :
  __NRVT_routerKey (win b) = keyA →
  backward_lookup keyB pageB b = Ok None →
  marker_lookup pageB b = Ok (Some t) →
  getElementSelector pageB t = Some sel →
  sel ≠ "" →
  selector_key keyA keyB ≠ selector_key keyB keyA →
  query pageB' sel = Ok (Some t) →
  ∃ b1 r b2 b3,
    handleRouteChangeComplete getElementSelector keyB pageB (Client b)
    = (Ok tt, Client b1)
    ∧ handleRouteChangeComplete getElementSelector keyA pageA (Client b1)
      = (r, Client b2)
    ∧ handleRouteChangeComplete getElementSelector keyB pageB' (Client b2)
      = (Ok tt, Client b3)
    ∧ viewTransitionName b3 !! t = Some transition_img_name.
Proof.
  intros HkeyA Hback Hmark Hsel Hne Hkeys Hlive.
  set (b1 := (outcome getElementSelector keyB pageB b).2).
  set (b2 := (outcome getElementSelector keyA pageA b1).2).
  exists b1, (outcome getElementSelector keyA pageA b1).1, b2,
    (outcome getElementSelector keyB pageB' b2).2.
  rewrite !handleRouteChangeComplete_client. fold b1 b2.
  assert (H1 : sessionStorage b1 !! selector_key keyB keyA = Some sel).
  { unfold b1, outcome. rewrite Hback, Hmark. cbn.
    unfold backwardKey, previousKey. rewrite HkeyA, Hsel.
    rewrite (truthy_nonempty sel Hne). cbn. apply lookup_insert_eq. }
  assert (Hk1 : __NRVT_routerKey (win b1) = keyB) by apply outcome_routerKey.
  assert (Hk2 : __NRVT_routerKey (win b2) = keyA) by apply outcome_routerKey.
  assert (H2 : sessionStorage b2 !! selector_key keyB keyA = Some sel).
  { (* on the way back the slot is empty, so the only write possible is the
       one under the mirrored key *)
    assert (Hs1 : truthy (__NRVT_transitionImgSelector (win b1)) = None)
      by apply outcome_slot_falsy.
    unfold b2, outcome, persisted. rewrite Hs1.
    destruct (backward_lookup keyA pageA b1) as [[e|]|err];
      [|destruct (marker_lookup pageA b1) as [[e|]|err]|]; cbn; try exact H1.
    rewrite lookup_insert_ne; [exact H1|].
    unfold backwardKey, previousKey. rewrite Hk1. congruence. }
  assert (Hslot : truthy (__NRVT_transitionImgSelector (win b2)) = None)
    by apply outcome_slot_falsy.
  assert (Hb3 : backward_lookup keyB pageB' b2 = Ok (Some t)).
  { unfold backward_lookup, persisted, backwardKey, previousKey.
    rewrite Hslot, Hk2. cbn. rewrite H2.
    now rewrite (truthy_nonempty sel Hne). }
  split; [unfold outcome; now rewrite Hback, Hmark|]. split; [reflexivity|].
  unfold outcome. rewrite Hb3. cbn. split; [reflexivity|]. apply lookup_insert_eq.
Qed.

(** X3: a cleared marker is looked up as the text [undefined].  Right after
    a completion that returned, with no click in between, the next
    completion whose backward lookup yields nothing queries the document
    for the attribute kept from the last marker with the value
    [undefined], and names the element that carries it. *)
Theorem cleared_marker_is_queried_as_undefined
    (key1 key2 : option string) (doc1 doc2 : document) (b b1 : browser) (el : element) :
  handleRouteChangeComplete getElementSelector key1 doc1 (Client b) = (Ok tt, Client b1) →
  backward_lookup key2 doc2 b1 = Ok None →
  query doc2
    ("[" +:+ show (__NRVT_transitionAttributeName (win b)) +:+ "=" +:+ dquote
         +:+ "undefined" +:+ dquote +:+ "]") = Ok (Some el) →
  ∃ b2,
    handleRouteChangeComplete getElementSelector key2 doc2 (Client b1)
    = (Ok tt, Client b2)
    ∧ viewTransitionName b2 !! el = Some transition_img_name
    ∧ sessionStorage b2 !! selector_key key2 key1
      = Some (default "" (getElementSelector doc2 el)).
Proof.
  intros H1 Hback Hq. apply handleRouteChangeComplete_inv in H1 as [Hr ->].
  set (b1 := (outcome getElementSelector key1 doc1 b).2) in *.
  eexists. rewrite handleRouteChangeComplete_client.
  assert (Hmark : marker_lookup doc2 b1 = Ok (Some el)).
  { unfold marker_lookup, b1.
    rewrite outcome_value_cleared, outcome_name_kept by now symmetry. exact Hq. }
  unfold outcome at 1 2. rewrite Hback, Hmark. cbn.
  split; [reflexivity|]. split.
  - apply lookup_insert_eq.
  - unfold backwardKey, previousKey. unfold b1 at 1.
    rewrite outcome_routerKey, default_truthy. apply lookup_insert_eq.
Qed.

End Storage.

(** X4: for router keys without ['-'] the storage key determines the pair it
    was made from, in order: two navigations share an entry only when they
    go from the same key to the same key. *)
Theorem selector_key_determines_pair (a b a' b' : option string) :
  hyphen_free (show a) = true →
  hyphen_free (show a') = true →
  selector_key a b = selector_key a' b' →
  show a = show a' ∧ show b = show b'.
Proof.
  intros Ha Ha' Heq. unfold selector_key in Heq.
  apply append_cancel_l in Heq.
  pose proof (first_hyphen_unique _ _ _ _ Ha Ha' Heq) as E.
  split; [exact E|]. rewrite E in Heq.
  apply append_cancel_l in Heq. now apply (append_cancel_l "-") in Heq.
Qed.

(** * Further properties of the mock articles *)

Lemma get_Throw (o : value) (k : string) :
  get o k = Throw TypeError ↔ nullish o = true.
Proof.
  destruct o; cbn; split; intros H; try discriminate; reflexivity.
Qed.

Lemma get_Ok (o : value) (k : string) :
  nullish o = false → get o k = Ok (field o k).
Proof.
  destruct o; cbn; intros H; try discriminate; reflexivity.
Qed.

(** X5: [getMockArticleList] throws exactly when the table has no usable
    entry at index [origId mod 20]: the index is past the end of the table,
    or the entry there is [null], or its [attributes] are missing or [null].
    In every other case it returns an object. *)
Theorem getMockArticleList_throws_iff (articlesList : list value)
    (beyond_safe : N -> string) (origId : N) :
  let entry := index articlesList (origId mod 20) in
  (getMockArticleList articlesList beyond_safe origId = Throw TypeError
   ↔ nullish entry = true ∨ nullish (field entry "attributes") = true)
  ∧ ((List.length articlesList <= N.to_nat (origId mod 20))%nat →
     getMockArticleList articlesList beyond_safe origId = Throw TypeError)
  ∧ (nullish entry = false → nullish (field entry "attributes") = false →
     ∃ props, getMockArticleList articlesList beyond_safe origId = Ok (VObj props)).
Proof.
  intros entry. unfold getMockArticleList. fold entry.
  assert (Hcases : (nullish entry = true ∨ nullish (field entry "attributes") = true)
                   ∨ (nullish entry = false ∧ nullish (field entry "attributes") = false)).
  { destruct (nullish entry); [left; now left|].
    destruct (nullish (field entry "attributes")); [left; now right|now right]. }
  assert (Hbad : nullish entry = true ∨ nullish (field entry "attributes") = true →
                 (articleAttributes ← get entry "attributes";
                  description ← get articleAttributes "description";
                  headings ← get articleAttributes "headings";
                  previewContent ← get articleAttributes "previewContent";
                  thumbnail ← get articleAttributes "thumbnail";
                  mret (VObj (set_prop "attributes"
                     (VObj [("description", description); ("headings", headings);
                            ("previewContent", previewContent);
                            ("thumbnail", thumbnail);
                            ("slug", VStr ("lorem-ipsum-" +:+ Number_toString beyond_safe origId));
                            ("title", VStr ("Lorem ipsum " +:+ Number_toString beyond_safe origId))])
                     (spread entry)))) = Throw TypeError).
  { intros [H|H].
    - apply (get_Throw entry "attributes") in H. now rewrite H.
    - destruct (nullish entry) eqn:He.
      + apply (get_Throw entry "attributes") in He. now rewrite He.
      + rewrite (get_Ok entry "attributes" He). cbn.
        apply (get_Throw _ "description") in H. now rewrite H. }
  assert (Hgood : nullish entry = false → nullish (field entry "attributes") = false →
                  ∃ props,
                 (articleAttributes ← get entry "attributes";
                  description ← get articleAttributes "description";
                  headings ← get articleAttributes "headings";
                  previewContent ← get articleAttributes "previewContent";
                  thumbnail ← get articleAttributes "thumbnail";
                  mret (VObj (set_prop "attributes"
                     (VObj [("description", description); ("headings", headings);
                            ("previewContent", previewContent);
                            ("thumbnail", thumbnail);
                            ("slug", VStr ("lorem-ipsum-" +:+ Number_toString beyond_safe origId));
                            ("title", VStr ("Lorem ipsum " +:+ Number_toString beyond_safe origId))])
                     (spread entry)))) = Ok (VObj props)).
  { intros He Ha. rewrite (get_Ok entry "attributes" He). cbn.
    rewrite !(get_Ok (field entry "attributes") _ Ha). cbn. eauto. }
  split; [|split].
  - split; [|exact Hbad].
    intros Hthrow. destruct Hcases as [H|[He Ha]]; [exact H|].
    destruct (Hgood He Ha) as [props Hp]. congruence.
  - intros Hlen. apply Hbad. left. unfold entry, index.
    now rewrite lookup_ge_None_2.
  - exact Hgood.
Qed.

Lemma set_prop_lookup (k : string) (v : value) (props : list (string * value)) :
  lookup_prop k (set_prop k v props) = Some v.
Proof.
  induction props as [|[k' v'] props IH]; cbn.
  - now rewrite String.eqb_refl.
  - destruct (String.eqb k k') eqn:E; cbn; rewrite ?String.eqb_refl, ?E; auto.
Qed.

(** X6: the results for two distinct safe integers differ, also when the
    two share the table entry: the slug written into the result is made of
    the digits of the id. *)
Theorem getMockArticleList_tells_ids_apart (articlesList : list value)
    (beyond_safe : N -> string) (a b : N) (ra rb : value) :
  (a < 2 ^ 53)%N →
  (b < 2 ^ 53)%N →
  a ≠ b →
  getMockArticleList articlesList beyond_safe a = Ok ra →
  getMockArticleList articlesList beyond_safe b = Ok rb →
  field (field ra "attributes") "slug" = VStr ("lorem-ipsum-" +:+ pretty a)
  ∧ field (field rb "attributes") "slug" = VStr ("lorem-ipsum-" +:+ pretty b)
  ∧ field (field ra "attributes") "slug" ≠ field (field rb "attributes") "slug"
  ∧ ra ≠ rb.
Proof.
  intros Ha Hb Hne.
  assert (Hslug : ∀ n r, (n < 2 ^ 53)%N →
            getMockArticleList articlesList beyond_safe n = Ok r →
            field (field r "attributes") "slug" = VStr ("lorem-ipsum-" +:+ pretty n)).
  { intros n r Hn. unfold getMockArticleList, Number_toString.
    apply N.ltb_lt in Hn. rewrite Hn.
    destruct (get (index articlesList (n mod 20)) "attributes") as [at_|];
      [|discriminate].
    cbn.
    destruct (get at_ "description"); [|discriminate].
    destruct (get at_ "headings"); [|discriminate].
    destruct (get at_ "previewContent"); [|discriminate].
    destruct (get at_ "thumbnail"); [|discriminate].
    cbn. intros [= <-]. unfold field at 2. now rewrite set_prop_lookup. }
  intros Hra Hrb.
  pose proof (Hslug a ra Ha Hra) as Sa. pose proof (Hslug b rb Hb Hrb) as Sb.
  assert (Hdiff : field (field ra "attributes") "slug"
                  ≠ field (field rb "attributes") "slug").
  { rewrite Sa, Sb. intros [= H]. apply Hne.
    apply (inj pretty). exact (append_cancel_l _ _ _ H). }
  split; [exact Sa|]. split; [exact Sb|]. split; [exact Hdiff|].
  intros ->. now apply Hdiff.
Qed.

(** * Further properties of a click *)

Lemma replace_first_unfold (pat s : string) :
  replace_first pat s
  = if String.prefix pat s
    then String.substring (String.length pat) (String.length s - String.length pat) s
    else match s with
         | EmptyString => EmptyString
         | String c s' => String c (replace_first pat s')
         end.
Proof. destruct s; reflexivity. Qed.

Lemma append_cons (c : ascii) (p q : string) : String c p +:+ q = String c (p +:+ q).
Proof. reflexivity. Qed.

Lemma append_empty (q : string) : "" +:+ q = q.
Proof. reflexivity. Qed.

Lemma prefix_append (p q : string) : String.prefix p (p +:+ q) = true.
Proof.
  induction p as [|c p IH]; rewrite ?append_cons, ?append_empty; cbn.
  - now destruct q.
  - destruct (ascii_dec c c); [exact IH|congruence].
Qed.

Lemma substring_all (q : string) : String.substring 0 (String.length q) q = q.
Proof. induction q as [|c q IH]; cbn; [reflexivity|now rewrite IH]. Qed.

Lemma length_append (p q : string) :
  String.length (p +:+ q) = (String.length p + String.length q)%nat.
Proof.
  induction p as [|c p IH]; rewrite ?append_cons, ?append_empty; cbn;
    [reflexivity|now rewrite IH].
Qed.

Lemma substring_after_prefix (p q : string) :
  String.substring (String.length p)
    (String.length (p +:+ q) - String.length p) (p +:+ q) = q.
Proof.
  rewrite length_append.
  replace (String.length p + String.length q - String.length p)%nat
    with (String.length q) by lia.
  induction p as [|c p IH]; rewrite ?append_cons, ?append_empty; cbn;
    [apply substring_all|exact IH].
Qed.

Lemma replace_first_prefix (pat rest : string) :
  replace_first pat (pat +:+ rest) = rest.
Proof.
  rewrite replace_first_unfold, prefix_append. apply substring_after_prefix.
Qed.

Lemma indexOf_unfold (pat s : string) :
  indexOf pat s
  = if String.prefix pat s then Some 0
    else match s with
         | EmptyString => None
         | String _ s' => S <$> indexOf pat s'
         end.
Proof. destruct s; reflexivity. Qed.

Lemma replace_first_absent (pat s : string) :
  indexOf pat s = None → replace_first pat s = s.
Proof.
  induction s as [|c s IH]; rewrite indexOf_unfold, replace_first_unfold;
    destruct (String.prefix pat _); try discriminate; [reflexivity|].
  destruct (indexOf pat s); [discriminate|]. intros _. now rewrite IH.
Qed.

Lemma replace_first_at (pat pre post : string) :
  indexOf pat (pre +:+ pat +:+ post) = Some (String.length pre) →
  replace_first pat (pre +:+ pat +:+ post) = pre +:+ post.
Proof.
  induction pre as [|c pre IH].
  - intros _. rewrite append_empty. apply replace_first_prefix.
  - rewrite !append_cons. rewrite indexOf_unfold, replace_first_unfold.
    destruct (String.prefix pat _); [discriminate|].
    destruct (indexOf pat (pre +:+ pat +:+ post)) as [i|] eqn:E; [|discriminate].
    cbn. intros [= ->]. now rewrite IH.
Qed.

Section ClickValue.

Variable getElementSelector : document -> element -> option string.

(** X7: a click hands [handleTransitionStarted] the image it found and, as
    attribute value, the image's [src] with the first occurrence of the page
    origin removed: the path for a same-origin image, the [src] itself when
    the origin does not occur in it, and the empty string when no image was
    found.  The origin is removed wherever it first occurs, not only at the
    start. *)
Theorem click_hands_over_stripped_src (l : link) (doc : document) :
  (∀ b, handleClick getElementSelector l doc b
        = (run_onClick l;;
           setPlaceholderData (placeholderData l);;
           handleTransitionStarted getElementSelector
             (default "initial" (location_state_key l)) (click_transition doc l)) doc b)
  ∧ fromElement (click_transition doc l) = clicked_image doc l
  ∧ (clicked_image doc l = None → toAttributeValue (click_transition doc l) = "")
  ∧ (∀ el path, clicked_image doc l = Some el →
                img_src doc el = location_origin doc +:+ path →
                toAttributeValue (click_transition doc l) = path)
  ∧ (∀ el, clicked_image doc l = Some el →
           indexOf (location_origin doc) (img_src doc el) = None →
           toAttributeValue (click_transition doc l) = img_src doc el)
  ∧ (∀ el pre post, clicked_image doc l = Some el →
                    img_src doc el = pre +:+ location_origin doc +:+ post →
                    indexOf (location_origin doc) (img_src doc el)
                    = Some (String.length pre) →
                    toAttributeValue (click_transition doc l) = pre +:+ post).
Proof.
  split; [|split; [reflexivity|split; [|split; [|split]]]].
  - intros b. rewrite handleClick_run.
    unfold mbind, M_bind.
    destruct (run_onClick l doc b) as [[[]|e] b1]; [|reflexivity].
    unfold click_outcome, click_transition, handleTransitionStarted,
      setPlaceholderData, modify, ask, mbind, M_bind, mret, M_ret. cbn.
    destruct (clicked_image doc l); reflexivity.
  - intros H. unfold click_transition. now rewrite H.
  - intros el path H Hsrc. unfold click_transition. rewrite H. cbn.
    rewrite Hsrc. apply replace_first_prefix.
  - intros el H Habsent. unfold click_transition. rewrite H. cbn.
    now apply replace_first_absent.
  - intros el pre post H Hsrc Hat. unfold click_transition. rewrite H. cbn.
    rewrite Hsrc in *. now apply replace_first_at.
Qed.

End ClickValue.

(** * The image configuration *)

Module ImageConfigFacts.

Import ImageConfig.

#[global] Instance before_difference_total : Total (before difference).
Proof. intros a b. unfold before, difference. lia. Qed.

#[global] Instance before_difference_trans : Transitive (before difference).
Proof. intros a b c. unfold before, difference. lia. Qed.

#[global] Instance before_difference_antisymm : AntiSymm (=) (before difference).
Proof. intros a b. unfold before, difference. lia. Qed.

Lemma Sorted_before_le (l : list Z) : Sorted (before difference) l → Sorted Z.le l.
Proof.
  induction 1 as [|a l Hs IH Hhd]; constructor; [exact IH|].
  destruct Hhd as [|b l Hab]; constructor. unfold before, difference in Hab. lia.
Qed.

Lemma sort_sorted (l : list Z) : Sorted Z.le (sort difference l).
Proof. apply Sorted_before_le, Sorted_merge_sort, _. Qed.

Lemma sort_permutation (l : list Z) : sort difference l ≡ₚ l.
Proof. apply merge_sort_Permutation. Qed.

Lemma sort_permuted (l1 l2 : list Z) :
  l1 ≡ₚ l2 → sort difference l1 = sort difference l2.
Proof.
  intros H. apply (Sorted_unique (before difference)).
  - apply Sorted_merge_sort, _.
  - apply Sorted_merge_sort, _.
  - now rewrite !sort_permutation.
Qed.

Lemma sort_idempotent (l : list Z) :
  sort difference (sort difference l) = sort difference l.
Proof. apply sort_permuted, sort_permutation. Qed.

(** X8: the configuration [NextImage] computes lists every device and image
    size in [allSizes], in ascending order, and the device sizes in ascending
    order; the shared default keeps its image sizes and other properties, and
    its device sizes are left sorted. *)
Theorem config_sizes_ascending (c : imageConfig) :
  let r := (config c).1 in
  let c' := (config c).2 in
  Sorted Z.le (allSizes r)
  ∧ allSizes r ≡ₚ deviceSizes c ++ imageSizes c
  ∧ Sorted Z.le (deviceSizes (base r))
  ∧ deviceSizes (base r) ≡ₚ deviceSizes c
  ∧ (∀ q, qualities c = Some q →
          ∃ q', qualities (base r) = Some q' ∧ Sorted Z.le q' ∧ q' ≡ₚ q)
  ∧ (qualities c = None → qualities (base r) = None)
  ∧ base r = c'
  ∧ imageSizes c' = imageSizes c
  ∧ others c' = others c.
Proof.
  cbn. repeat split.
  - apply sort_sorted.
  - apply sort_permutation.
  - apply sort_sorted.
  - apply sort_permutation.
  - intros q ->. eexists. split; [reflexivity|]. split;
      [apply sort_sorted|apply sort_permutation].
  - now intros ->.
Qed.

(** X9: [allSizes] and the sorted device sizes do not depend on the order in
    which the default lists its sizes, and computing the configuration again
    from the default it left behind gives the same configuration and leaves
    the default as it is. *)
Theorem config_order_independent (c1 c2 : imageConfig) :
  deviceSizes c1 ≡ₚ deviceSizes c2 →
  imageSizes c1 ≡ₚ imageSizes c2 →
  allSizes (config c1).1 = allSizes (config c2).1
  ∧ deviceSizes (base (config c1).1) = deviceSizes (base (config c2).1)
  ∧ config (config c1).2 = config c1.
Proof.
  intros Hd Hi. split; [|split].
  - unfold config. cbn [fst allSizes]. apply sort_permuted. now rewrite Hd, Hi.
  - unfold config. cbn [fst base deviceSizes]. now apply sort_permuted.
  - unfold config.
    cbn [fst snd deviceSizes imageSizes qualities others base allSizes].
    rewrite sort_idempotent.
    rewrite (sort_permuted (sort difference (deviceSizes c1) ++ imageSizes c1)
                           (deviceSizes c1 ++ imageSizes c1))
      by now rewrite sort_permutation.
    destruct (qualities c1) as [q|]; cbn; [|reflexivity].
    now rewrite sort_idempotent.
Qed.

End ImageConfigFacts.

(** * The article page *)

Section ArticleFacts.

Variable number_is_zero : string -> bool.

Local Abbreviation truthy_value := (to_boolean number_is_zero).
Local Abbreviation render := (BlogItemPostPage number_is_zero).
Local Abbreviation parts := (article_parts number_is_zero).

Lemma lookup_prop_field (k : string) (props : list (string * value)) :
  (if bool_decide (is_Some (lookup_prop k props))
   then field (VObj props) k else VUndefined)
  = field (VObj props) k.
Proof.
  cbn. destruct (lookup_prop k props); reflexivity.
Qed.

Lemma article_parts_object (article : value) (props : list (string * value)) :
  nullish article = false →
  field article "attributes" = VObj props →
  parts article
  = Ok (field (VObj props) "content",
        default (VArr []) (lookup_prop "relatedArticles" props)).
Proof.
  intros Ha Hattrs. unfold article_parts.
  rewrite (get_Ok article "attributes" Ha), Hattrs. cbn.
  destruct (lookup_prop "content" props), (lookup_prop "relatedArticles" props);
    reflexivity.
Qed.

Lemma article_parts_falsy (article : value) :
  nullish article = false →
  truthy_value (field article "attributes") = false →
  parts article = Ok (VUndefined, VArr []).
Proof.
  intros Ha Hattrs. unfold article_parts.
  rewrite (get_Ok article "attributes" Ha). cbn. now rewrite Hattrs.
Qed.

(** X10: for an article that is given, [BlogItemPostPage] renders the loader
    when the article has no attributes (missing, [null] or otherwise falsy)
    and when its attributes hold no truthy [content]; with attributes that
    are an object holding a truthy [content] it renders the page with that
    content and with [relatedArticles] as the attributes have them, the
    empty array when they have none.  Attributes that are a truthy string,
    number or boolean make it throw. *)
Theorem BlogItemPostPage_renders (article : value) :
  nullish article = false →
  let attributes := field article "attributes" in
  (truthy_value attributes = false → render article = Ok BlogItemPostPageLoader)
  ∧ (∀ props, attributes = VObj props →
       render article
       = Ok (if truthy_value (field attributes "content")
             then Page (default (VArr []) (lookup_prop "relatedArticles" props))
                       (field attributes "content")
             else BlogItemPostPageLoader))
  ∧ (∀ items, attributes = VArr items → render article = Ok BlogItemPostPageLoader)
  ∧ (truthy_value attributes = true →
     (∀ props, attributes ≠ VObj props) → (∀ items, attributes ≠ VArr items) →
     render article = Throw TypeError).
Proof.
  intros Ha attributes. unfold BlogItemPostPage. repeat split.
  - intros H. now rewrite (article_parts_falsy article Ha H).
  - intros props H. fold attributes. rewrite H.
    rewrite (article_parts_object article props Ha H). cbn.
    destruct (to_boolean _ _); reflexivity.
  - intros items H. unfold article_parts.
    rewrite (get_Ok article "attributes" Ha). fold attributes. rewrite H. reflexivity.
  - intros Ht Hobj Harr. unfold article_parts.
    rewrite (get_Ok article "attributes" Ha). fold attributes. cbn. rewrite Ht.
    destruct attributes; try discriminate; try reflexivity.
    + now destruct (Harr items).
    + now destruct (Hobj props).
Qed.

(** X11: the fade-in never touches anything while the loader is shown: when
    the render of an article gives the loader, the timeout callback run with
    the content read off that article leaves every opacity as it is; when it
    gives the page and the wrapper is mounted, the wrapper's opacity becomes
    [1] and no other element's changes. *)
Theorem reveal_follows_render (article content related : value)
    (ref_current : option element) (opacity : gmap element string) :
  parts article = Ok (content, related) →
  (render article = Ok BlogItemPostPageLoader →
   reveal number_is_zero content ref_current opacity = opacity)
  ∧ (∀ div, render article = Ok (Page related content) →
            ref_current = Some div →
            reveal number_is_zero content ref_current opacity !! div = Some "1"
            ∧ ∀ other, other ≠ div →
                       reveal number_is_zero content ref_current opacity !! other
                       = opacity !! other)
  ∧ (ref_current = None → reveal number_is_zero content ref_current opacity = opacity).
Proof.
  intros Hparts. unfold BlogItemPostPage, reveal. rewrite Hparts. cbn.
  repeat split.
  - destruct (to_boolean number_is_zero content); [discriminate|reflexivity].
  - destruct (to_boolean number_is_zero content); [|discriminate].
    subst ref_current. cbn. apply lookup_insert_eq.
  - intros other Hne.
    destruct (to_boolean number_is_zero content); [|discriminate].
    subst ref_current. cbn. now apply lookup_insert_ne.
  - intros ->. now destruct (to_boolean number_is_zero content).
Qed.

End ArticleFacts.

(** * Loading of the image element *)

Module LoadingFacts.

Import Loading.

Lemma emits_refl (P : effect → Prop) (w : page) : emits P w w.
Proof. exists []. split; [now rewrite app_nil_r|constructor]. Qed.

Lemma emits_trans (P : effect → Prop) (w1 w2 w3 : page) :
  emits P w1 w2 → emits P w2 w3 → emits P w1 w3.
Proof.
  intros (n1 & E1 & F1) (n2 & E2 & F2). exists (n1 ++ n2)%list. split.
  - now rewrite E2, E1, app_assoc.
  - now apply Forall_app.
Qed.

Lemma emits_quiet (P : effect → Prop) (w w' : page) :
  effects w' = effects w → emits P w w'.
Proof. intros E. exists []. split; [now rewrite app_nil_r|constructor]. Qed.

Lemma emits_implies (P Q : effect → Prop) (w w' : page) :
  (∀ e, P e → Q e) → emits P w w' → emits Q w w'.
Proof.
  intros HPQ (new & E & F). exists new. split; [exact E|].
  eapply Forall_impl; eauto.
Qed.

Lemma grows_emits (P : effect → Prop) (w w' : page) : grows P w w' → emits P w w'.
Proof. now intros (_ & _ & _ & _ & H). Qed.

Lemma grows_refl (P : effect → Prop) (w : page) : grows P w w.
Proof. repeat split. apply emits_refl. Qed.

Lemma grows_trans (P : effect → Prop) (w1 w2 w3 : page) :
  grows P w1 w2 → grows P w2 w3 → grows P w1 w3.
Proof.
  intros (A1 & B1 & C1 & D1 & E1) (A2 & B2 & C2 & D2 & E2).
  repeat split; try congruence. now apply (emits_trans P w1 w2).
Qed.

Lemma grows_emit (P : effect → Prop) (e : effect) (w w1 : page) :
  P e → grows P w w1 → grows P w (emit e w1).
Proof.
  intros He H. apply (grows_trans P w w1); [exact H|].
  repeat split. exists [e]. split; [reflexivity|]. now repeat constructor.
Qed.

Lemma grows_when (P : effect → Prop) (c : bool) (f : page → page) (w w1 : page) :
  (∀ x, grows P x (f x)) → grows P w w1 → grows P w (when c f w1).
Proof.
  intros Hf H. unfold when. destruct c; [|exact H].
  now apply (grows_trans P w w1).
Qed.

Lemma grows_implies (P Q : effect → Prop) (w w' : page) :
  (∀ e, P e → Q e) → grows P w w' → grows Q w w'.
Proof.
  intros HPQ (A & B & C & D & E). repeat split; try assumption.
  now apply (emits_implies P Q).
Qed.

(** Goals of the form [grows P w (step (step ... w))]. *)
Ltac grow :=
  repeat first
    [ apply grows_refl
    | apply grows_emit; [solve [eauto]|]
    | apply grows_when; [intros ?; cbv beta|]
    | match goal with
      | |- grows _ _ (match ?o with _ => _ end) => destruct o
      end ].

Section Facts.

Variable production : bool.
Variable searchParams_url : string -> option string.

Local Abbreviation decoded := (Loading.decoded production searchParams_url).
Local Abbreviation ownRef := (Loading.ownRef production).
Local Abbreviation settle := (Loading.settle production searchParams_url).
Local Abbreviation completion := (Loading.completion production).
Local Abbreviation mounting := (Loading.mounting production).

Lemma development_checks_grows (d : decoding) (w : page) :
  grows is_warning w (development_checks searchParams_url d w).
Proof.
  unfold development_checks. cbv zeta. unfold is_warning. grow.
Qed.

Lemma blur_step (d : decoding) (w : page) :
  grows (completion d) w
    (when (negb (String.eqb (placeholder d) "empty")) (emit (SetBlurComplete true)) w).
Proof.
  unfold when. destruct (String.eqb_spec (placeholder d) "empty"); cbn.
  - apply grows_refl.
  - apply grows_emit; [now left|apply grows_refl].
Qed.

Lemma decoded_grows (d : decoding) (w : page) :
  grows (completion d) w (decoded d w).
Proof.
  unfold Loading.decoded. cbv zeta.
  destruct (negb _ || negb _); [apply grows_refl|].
  assert (Hcalls : ∀ x,
    grows (completion d) x
      match onLoadingCompleteRef
              match onLoadRef x with
              | Some h => emit (OnLoad h) x
              | None => x
              end
      with
      | Some h => emit (OnLoadingComplete h)
                    match onLoadRef x with
                    | Some h0 => emit (OnLoad h0) x
                    | None => x
                    end
      | None => match onLoadRef x with
                | Some h0 => emit (OnLoad h0) x
                | None => x
                end
      end).
  { intros x. destruct (onLoadRef x); destruct (onLoadingCompleteRef _);
      repeat (apply grows_emit; [unfold completion; eauto 8|]); apply grows_refl. }
  unfold when at 1. destruct (negb production) eqn:E.
  - apply negb_true_iff in E.
    eapply grows_trans; [|apply (grows_implies is_warning);
                          [|apply development_checks_grows]].
    + eapply grows_trans; [apply blur_step|apply Hcalls].
    + intros e He. unfold completion. auto.
  - eapply grows_trans; [apply blur_step|apply Hcalls].
Qed.

Lemma handleLoading_fresh (t : unit) (p : string) (u : bool) (s : option string)
    (w : page) :
  data_loaded_src (img w) ≠ Some (src (img w)) →
  pending (handleLoading (Some t) p u s w)
  = (pending w ++ [{| placeholder := p; loaded_src := src (img w);
                      unoptimized := u; sizesInput := s |}])%list
  ∧ data_loaded_src (img (handleLoading (Some t) p u s w)) = Some (src (img w))
  ∧ src (img (handleLoading (Some t) p u s w)) = src (img w)
  ∧ emits (λ e, e = Decode) w (handleLoading (Some t) p u s w).
Proof.
  intros H. unfold handleLoading. rewrite bool_decide_false by exact H.
  cbv zeta. unfold when. cbn.
  destruct (decodable (img w)); cbn;
    (split; [reflexivity|split; [reflexivity|split; [reflexivity|]]]).
  - exists [Decode]. split; [reflexivity|now repeat constructor].
  - now apply emits_quiet.
Qed.

Lemma handleLoading_loaded (t : option unit) (p : string) (u : bool) (s : option string)
    (w : page) :
  data_loaded_src (img w) = Some (src (img w)) →
  handleLoading t p u s w = w.
Proof.
  intros H. unfold handleLoading. destruct t; [|reflexivity].
  now rewrite bool_decide_true by exact H.
Qed.

(** X12: [handleLoading] acts once per source.  Called again on an image
    whose source has not changed, with whatever arguments, it changes
    nothing: no second callback is queued and [decode] is not called again. *)
Theorem handleLoading_once (t t' : unit) (p p' : string) (u u' : bool)
    (s s' : option string) (w : page) :
  handleLoading (Some t') p' u' s' (handleLoading (Some t) p u s w)
  = handleLoading (Some t) p u s w.
Proof.
  destruct (decide (data_loaded_src (img w) = Some (src (img w)))) as [E|E].
  - rewrite (handleLoading_loaded (Some t) p u s w E).
    apply handleLoading_loaded, E.
  - destruct (handleLoading_fresh t p u s w E) as (_ & Hl & Hs & _).
    apply handleLoading_loaded. now rewrite Hl, Hs.
Qed.

Lemma ownRef_prelude (p : props) (t : unit) (w : page) :
  ∃ w1, grows mounting w w1
        ∧ ownRef p (Some t) w
          = when (if bool_decide (is_Some (props_onError p))
                  then complete_reassigned (img w1) else complete (img w1))
              (handleLoading (Some t) (props_placeholder p) (props_unoptimized p)
                 (props_sizesInput p)) w1.
Proof.
  unfold Loading.ownRef. cbv zeta. eexists. split; [|reflexivity].
  unfold when at 1. destruct (negb production) eqn:E.
  - apply negb_true_iff in E. unfold mounting. grow.
  - unfold mounting. grow.
Qed.

(** X13: mounting and loading queue one callback between them.  For an
    image not yet handled for its source, the ref callback followed by the
    [load] event queues exactly one callback for that source, whether the
    image was already complete at mount (the ref callback queues it) or not
    (the event does); a further [load] event queues nothing. *)
Theorem mount_then_load_queues_once (p : props) (w : page) :
  data_loaded_src (img w) ≠ Some (src (img w)) →
  let w' := onLoad p (ownRef p (Some tt) w) in
  pending w'
  = (pending w ++ [{| placeholder := props_placeholder p;
                      loaded_src := src (img w);
                      unoptimized := props_unoptimized p;
                      sizesInput := props_sizesInput p |}])%list
  ∧ onLoad p w' = w'.
Proof.
  intros Hfresh w'. subst w'.
  destruct (ownRef_prelude p tt w) as (w1 & (Himg & _ & _ & Hpending & _) & ->).
  assert (Hfresh1 : data_loaded_src (img w1) ≠ Some (src (img w1)))
    by now rewrite Himg.
  unfold Loading.onLoad. unfold when.
  destruct (if bool_decide _ then _ else _).
  - rewrite handleLoading_once.
    destruct (handleLoading_fresh tt (props_placeholder p) (props_unoptimized p)
                (props_sizesInput p) w1 Hfresh1) as (-> & _ & _ & _).
    rewrite Hpending, Himg. split; [reflexivity|]. apply handleLoading_once.
  - destruct (handleLoading_fresh tt (props_placeholder p) (props_unoptimized p)
                (props_sizesInput p) w1 Hfresh1) as (-> & _ & _ & _).
    rewrite Hpending, Himg. split; [reflexivity|]. apply handleLoading_once.
Qed.

Lemma decoded_unmounted (d : decoding) (w : page) :
  parentElement (img w) = None ∨ isConnected (img w) = false →
  decoded d w = w.
Proof.
  intros H. unfold Loading.decoded.
  destruct H as [-> | ->]; cbn; [reflexivity|].
  now rewrite orb_true_r.
Qed.

(** X14: an image taken out of the document before its decode settles gets
    no callback.  When the image has no parent or is not connected, the
    queued callbacks run without a single effect: no blur change, no
    [onLoad], no [onLoadingComplete], no warning. *)
Theorem settle_unmounted (w : page) :
  parentElement (img w) = None ∨ isConnected (img w) = false →
  settle w = set_pending [] w.
Proof.
  intros H. unfold Loading.settle.
  assert (Hx : parentElement (img (set_pending [] w)) = None
               ∨ isConnected (img (set_pending [] w)) = false) by exact H.
  generalize dependent (set_pending [] w). intros x Hx.
  induction (pending w) as [|d l IH]; cbn; [reflexivity|].
  now rewrite (decoded_unmounted d x Hx).
Qed.

(** X15: the callbacks called are those current when the decode settles.
    In a production build, for a connected image whose [load] event was
    handled and whose refs were updated before the decode settled, the
    effects are, in this order: the [decode] call if the image has one, the
    blur completion unless the placeholder is [empty], the [onLoad] then
    current, the [onLoadingComplete] then current. *)
Theorem settle_calls_current_refs (p : props) (w : page)
    (onLoad' onLoadingComplete' : option handler) :
  production = true →
  pending w = [] →
  data_loaded_src (img w) ≠ Some (src (img w)) →
  is_Some (parentElement (img w)) →
  isConnected (img w) = true →
  effects (settle (sync_onLoadingCompleteRef onLoadingComplete'
                     (sync_onLoadRef onLoad' (onLoad p w))))
  = (effects w
     ++ (if decodable (img w) then [Decode] else [])
     ++ (if String.eqb (props_placeholder p) "empty" then [] else [SetBlurComplete true])
     ++ match onLoad' with Some h => [OnLoad h] | None => [] end
     ++ match onLoadingComplete' with Some h => [OnLoadingComplete h] | None => [] end)%list.
Proof.
  intros Hprod Hpending Hfresh [position Hparent] Hconnected.
  unfold Loading.settle, Loading.onLoad, handleLoading.
  rewrite bool_decide_false by exact Hfresh.
  cbv zeta. unfold when.
  destruct (decodable (img w)) eqn:Hd; cbn; rewrite Hd; cbn; rewrite Hpending; cbn;
    unfold Loading.decoded, when; cbn; rewrite Hprod, Hparent, Hconnected; cbn;
    destruct (String.eqb (props_placeholder p) "empty"); cbn;
    destruct onLoad', onLoadingComplete'; cbn;
    rewrite <- ?app_assoc, ?app_nil_r; reflexivity.
Qed.

Lemma onError_grows (p : props) (w : page) :
  grows (λ e, e = SetShowAltText true
              ∨ (e = SetBlurComplete true ∧ props_placeholder p ≠ "empty")
              ∨ ∃ h, e = OnError h) w (onError p w).
Proof.
  unfold Loading.onError. cbv zeta.
  destruct (props_onError p).
  - apply grows_emit; [eauto|].
    unfold when. destruct (String.eqb_spec (props_placeholder p) "empty"); cbn;
      repeat (apply grows_emit; [eauto|]); apply grows_refl.
  - unfold when. destruct (String.eqb_spec (props_placeholder p) "empty"); cbn;
      repeat (apply grows_emit; [eauto|]); apply grows_refl.
Qed.

Lemma fold_decoded_emits (P : effect → Prop) (l : list decoding) (x : page) :
  (∀ d, d ∈ l → ∀ y, emits P y (decoded d y)) →
  emits P x (fold_left (λ w d, decoded d w) l x).
Proof.
  revert x. induction l as [|d l IH]; intros x H; cbn; [apply emits_refl|].
  apply (emits_trans P x (decoded d x)).
  - apply H. now left.
  - apply IH. intros d' Hd'. apply H. now right.
Qed.

Lemma settle_emits (w : page) :
  emits (λ e, ∃ d, d ∈ pending w ∧ completion d e) w (settle w).
Proof.
  unfold Loading.settle.
  apply (emits_trans _ w (set_pending [] w)); [now apply emits_quiet|].
  apply fold_decoded_emits. intros d Hd y.
  apply (emits_implies (completion d)).
  - intros e He. now exists d.
  - apply grows_emits, decoded_grows.
Qed.

Lemma ownRef_emits (p : props) (t : option unit) (w : page) :
  emits (λ e, e = Decode ∨ mounting e) w (ownRef p t w).
Proof.
  destruct t as [t|]; [|apply emits_refl].
  destruct (ownRef_prelude p t w) as (w1 & Hw1 & ->).
  apply (emits_trans _ w w1).
  - apply (emits_implies mounting); [auto|]. now apply grows_emits.
  - unfold when. destruct (if bool_decide _ then _ else _); [|apply emits_refl].
    destruct (decide (data_loaded_src (img w1) = Some (src (img w1)))) as [E|E].
    + rewrite (handleLoading_loaded _ _ _ _ _ E). apply emits_refl.
    + destruct (handleLoading_fresh t (props_placeholder p) (props_unoptimized p)
                  (props_sizesInput p) w1 E) as (_ & _ & _ & H).
      apply (emits_implies (λ e, e = Decode)); [auto|exact H].
Qed.

Lemma onLoad_emits (p : props) (w : page) :
  emits (λ e, e = Decode) w (onLoad p w).
Proof.
  unfold Loading.onLoad.
  destruct (decide (data_loaded_src (img w) = Some (src (img w)))) as [E|E].
  - rewrite (handleLoading_loaded _ _ _ _ _ E). apply emits_refl.
  - now destruct (handleLoading_fresh tt (props_placeholder p) (props_unoptimized p)
                    (props_sizesInput p) w E) as (_ & _ & _ & H).
Qed.

(** X16: the handlers only ever complete the blur.  None of them calls
    [setBlurComplete(false)]; the ref callback and the [load] event do not
    call it at all, and neither a settled decode nor the [error] event calls
    it when the placeholder is [empty]. *)
Theorem blur_is_only_completed :
  (∀ d w, emits (λ e, e ≠ SetBlurComplete false
                      ∧ (placeholder d = "empty" → ∀ b, e ≠ SetBlurComplete b))
            w (decoded d w))
  ∧ (∀ p w, emits (λ e, e ≠ SetBlurComplete false
                        ∧ (props_placeholder p = "empty" → ∀ b, e ≠ SetBlurComplete b))
              w (onError p w))
  ∧ (∀ p t w, emits (λ e, ∀ b, e ≠ SetBlurComplete b) w (ownRef p t w))
  ∧ (∀ p w, emits (λ e, ∀ b, e ≠ SetBlurComplete b) w (onLoad p w))
  ∧ (∀ w, emits (λ e, e ≠ SetBlurComplete false) w (settle w)).
Proof.
  split; [|split; [|split; [|split]]].
  - intros d w. apply (emits_implies (completion d)); [|apply grows_emits, decoded_grows].
    intros e [[-> H]|[[h ->]|[[h ->]|[[m ->] _]]]]; split; try discriminate.
    intros E. now destruct H.
  - intros p w. eapply emits_implies; [|apply grows_emits, onError_grows].
    intros e [->|[[-> H]|[h ->]]]; split; try discriminate.
    intros E. now destruct H.
  - intros p t w. eapply emits_implies; [|apply ownRef_emits].
    intros e [->|[[s ->]|[[m ->] _]]] b; discriminate.
  - intros p w. eapply emits_implies; [|apply onLoad_emits].
    intros e -> b. discriminate.
  - intros w. eapply emits_implies; [|apply settle_emits].
    intros e (d & _ & [[-> H]|[[h ->]|[[h ->]|[[m ->] _]]]]); discriminate.
Qed.

(** X17: a production build neither warns nor logs: with
    [NODE_ENV = production] no handler calls [warnOnce] or
    [console.error], whatever the image and its props. *)
Theorem production_is_silent :
  production = true →
  (∀ d w, emits silent w (decoded d w))
  ∧ (∀ p w, emits silent w (onError p w))
  ∧ (∀ p t w, emits silent w (ownRef p t w))
  ∧ (∀ p w, emits silent w (onLoad p w))
  ∧ (∀ w, emits silent w (settle w)).
Proof.
  intros Hprod.
  assert (Hdev : production ≠ false) by (rewrite Hprod; discriminate).
  split; [|split; [|split; [|split]]].
  - intros d w. apply (emits_implies (completion d)); [|apply grows_emits, decoded_grows].
    intros e [[-> H]|[[h ->]|[[h ->]|[_ H]]]]; try (split; intros m; discriminate).
    now destruct Hdev.
  - intros p w. eapply emits_implies; [|apply grows_emits, onError_grows].
    intros e [->|[[-> H]|[h ->]]]; split; intros m; discriminate.
  - intros p t w. eapply emits_implies; [|apply ownRef_emits].
    intros e [->|[[s ->]|[_ H]]]; try (split; intros m; discriminate).
    now destruct Hdev.
  - intros p w. eapply emits_implies; [|apply onLoad_emits].
    intros e ->. split; intros m; discriminate.
  - intros w. eapply emits_implies; [|apply settle_emits].
    intros e (d & _ & [[-> H]|[[h ->]|[[h ->]|[_ H]]]]);
      try (split; intros m; discriminate).
    now destruct Hdev.
Qed.

End Facts.

End LoadingFacts.

(** * What [NextImage] renders *)

Module ElementFacts.

Import Element.

Lemma keys_assign (k : string) (v : prop) (o : object) :
  keys (assign k v o) = with_key k (keys o).
Proof.
  unfold with_key, keys. induction o as [|[k' v'] o IH]; cbn; [reflexivity|].
  destruct (String.eqb k k') eqn:E; cbn.
  - apply String.eqb_eq in E. now subst.
  - rewrite IH. now destruct (existsb (String.eqb k) o.*1).
Qed.

Lemma existsb_eqb_elem (k : string) (K : list string) :
  existsb (String.eqb k) K = true ↔ k ∈ K.
Proof.
  rewrite existsb_exists. split.
  - intros (x & Hx & E). apply String.eqb_eq in E. subst.
    now apply list_elem_of_In.
  - intros H. exists k. split; [now apply list_elem_of_In|apply String.eqb_refl].
Qed.

Lemma with_key_fresh (k : string) (K L : list string) :
  k ∉ K → with_key k (K ++ L) = (K ++ with_key k L)%list.
Proof.
  intros H. unfold with_key. rewrite existsb_app.
  destruct (existsb (String.eqb k) K) eqn:E.
  - apply existsb_eqb_elem in E. contradiction.
  - cbn. destruct (existsb (String.eqb k) L); [reflexivity|now rewrite app_assoc].
Qed.

Lemma with_key_known (k : string) (K L : list string) :
  k ∈ K → with_key k (K ++ L) = (K ++ L)%list.
Proof.
  intros H. unfold with_key. rewrite existsb_app.
  apply existsb_eqb_elem in H. now rewrite H.
Qed.

Lemma elem_of_with_key (k k' : string) (K : list string) :
  k' ∈ with_key k K ↔ k' ∈ K ∨ k' = k.
Proof.
  unfold with_key. destruct (existsb (String.eqb k) K) eqn:E.
  - apply existsb_eqb_elem in E. split; [auto|]. intros [H| ->]; assumption.
  - rewrite elem_of_app, list_elem_of_singleton. tauto.
Qed.

Lemma elem_of_keys_spread (k : string) (from o : object) :
  k ∈ keys (spread from o) ↔ k ∈ keys o ∨ k ∈ keys from.
Proof.
  unfold spread. revert o. induction from as [|[k' v'] from IH]; intros o; cbn.
  - cbn. rewrite elem_of_nil. tauto.
  - rewrite IH, keys_assign, elem_of_with_key.
    cbn. rewrite elem_of_cons. tauto.
Qed.

Lemma elem_of_keys_rest (k : string) (props : object) :
  k ∈ keys (rest props) → k ∉ named.
Proof.
  unfold keys, rest. rewrite list_elem_of_fmap. intros ([k' v] & -> & H).
  now apply list_elem_of_filter in H as [H _].
Qed.

Lemma lookup_assign (k k' : string) (v : prop) (o : object) :
  lookup k' (assign k v o) = if String.eqb k' k then Some v else lookup k' o.
Proof.
  induction o as [|[k0 v0] o IH]; cbn.
  - reflexivity.
  - destruct (String.eqb k k0) eqn:E; cbn.
    + apply String.eqb_eq in E. subst k0. now destruct (String.eqb k' k).
    + rewrite IH. destruct (String.eqb k' k0) eqn:E0; [|reflexivity].
      apply String.eqb_eq in E0. subst k0.
      destruct (String.eqb k' k) eqn:E1; [|reflexivity].
      apply String.eqb_eq in E1. subst k'. now rewrite String.eqb_refl in E.
Qed.

Lemma read_assign (k k' : string) (v : prop) (o : object) :
  read (assign k v o) k' = if String.eqb k' k then v else read o k'.
Proof.
  unfold read. rewrite lookup_assign. now destruct (String.eqb k' k).
Qed.

Lemma assign_fresh (k : string) (v : prop) (o : object) :
  k ∉ keys o → assign k v o = (o ++ [(k, v)])%list.
Proof.
  induction o as [|[k' v'] o IH]; cbn; [reflexivity|].
  intros H. apply not_elem_of_cons in H as [Hne H].
  destruct (String.eqb_spec k k'); [contradiction|]. now rewrite IH.
Qed.

Lemma spread_fresh (from o : object) :
  NoDup (keys (o ++ from)) → spread from o = (o ++ from)%list.
Proof.
  unfold spread. revert o. induction from as [|[k v] from IH]; intros o H; cbn.
  - now rewrite app_nil_r.
  - assert (Hk : k ∉ keys o).
    { unfold keys in *. rewrite fmap_app in H. cbn in H.
      apply NoDup_app in H as (_ & H & _). intros Hin. apply (H k Hin). now left. }
    rewrite (assign_fresh k v o Hk), IH.
    + now rewrite <- app_assoc.
    + now rewrite <- app_assoc.
Qed.

Lemma lookup_without_reserved (k : string) (o : object) :
  existsb (String.eqb k) reserved = false →
  lookup k (without_reserved o) = lookup k o.
Proof.
  intros Hk. unfold without_reserved.
  induction o as [|[k' v'] o IH]; [reflexivity|].
  rewrite filter_cons. cbn [fst].
  destruct (decide (k' ∉ reserved)) as [Hin|Hin]; cbn.
  - now rewrite IH.
  - rewrite IH. destruct (String.eqb k k') eqn:E; [|reflexivity].
    apply String.eqb_eq in E. subst k'.
    exfalso. apply Hin. intros H. apply existsb_eqb_elem in H. congruence.
Qed.

Lemma read_without_reserved (k : string) (o : object) :
  existsb (String.eqb k) reserved = false →
  read (without_reserved o) k = read o k.
Proof.
  intros Hk. unfold read. now rewrite lookup_without_reserved.
Qed.

Lemma elem_of_keys_without_reserved (k : string) (o : object) :
  k ∈ keys (without_reserved o) → k ∉ reserved.
Proof.
  unfold keys, without_reserved. rewrite list_elem_of_fmap. intros ([k' v] & -> & H).
  now apply list_elem_of_filter in H as [H _].
Qed.

Lemma elem_of_keys_rest_given (k : string) (props : object) :
  k ∈ keys (rest props) → k ∈ keys props.
Proof.
  unfold keys, rest. rewrite !list_elem_of_fmap. intros (kv & -> & H).
  apply list_elem_of_filter in H as [_ H]. eauto.
Qed.

Section RenderFacts.

Variable number_is_zero : string -> bool.
Variable react_has_use : bool.
Variable react_dom_has_preload : bool.

Local Abbreviation element := (Element.ImageElement number_is_zero react_has_use).
Local Abbreviation dynamic := (Element.getDynamicProps react_has_use).
Local Abbreviation priority_key := (Element.priority_key react_has_use).

Lemma spread_dynamic (v : prop) (o : object) :
  spread (dynamic v) o = assign priority_key v o.
Proof. unfold getDynamicProps, Element.priority_key. now destruct react_has_use. Qed.

Lemma named_not_early (given : object) (k : string) :
  k ∈ ["loading"; "width"; "height"; "decoding"; "className"; "style"; "sizes";
       "srcSet"; "src"; "ref"; "onLoad"; "onError"] →
  k ∉ keys (spread (dynamic (read (without_reserved given) "fetchPriority"))
              (spread (rest (without_reserved given)) [])).
Proof.
  intros Hk Hin.
  apply elem_of_keys_spread in Hin as [Hin|Hin].
  - apply elem_of_keys_spread in Hin as [Hin|Hin]; [now apply elem_of_nil in Hin|].
    pose proof (elem_of_keys_rest _ _ Hin) as Hnamed.
    apply elem_of_keys_rest_given, elem_of_keys_without_reserved in Hin.
    destruct (decide (k = "ref")) as [->|Hne].
    + apply Hin. apply existsb_eqb_elem. reflexivity.
    + apply Hnamed. apply existsb_eqb_elem.
      repeat (apply elem_of_cons in Hk as [->|Hk]; [reflexivity || congruence|]).
      now apply elem_of_nil in Hk.
  - unfold getDynamicProps in Hin.
    destruct react_has_use; cbn in Hin; apply list_elem_of_singleton in Hin; subst k;
      repeat (apply elem_of_cons in Hk as [Hk|Hk]; [discriminate|]);
      now apply elem_of_nil in Hk.
Qed.

(** X18: the order of the attributes of the rendered [img].  Whatever
    [ImageElement] is given, [loading], [width], [height] and [decoding]
    come first among the attributes it sets itself, [sizes] and [srcSet]
    come before [src], and after [src] come only the ref, which merges the
    one given, and the two handlers; the caller's other props and the fetch
    priority precede them all, and none of them can displace or repeat one
    of these attributes. *)
Theorem img_attributes_in_order (given : object) :
  let props := without_reserved given in
  let early := keys (spread (dynamic (read props "fetchPriority"))
                       (spread (rest props) [])) in
  ∃ nimg,
    (nimg = [] ∨ nimg = ["data-nimg"])
    ∧ keys (element given)
      = (early ++ ["loading"; "width"; "height"; "decoding"] ++ nimg
               ++ ["className"; "style"; "sizes"; "srcSet"; "src"; "ref";
                   "onLoad"; "onError"])%list
    ∧ Forall (λ k, k ∉ early)
        ["loading"; "width"; "height"; "decoding"; "className"; "style"; "sizes";
         "srcSet"; "src"; "ref"; "onLoad"; "onError"]
    ∧ read (element given) "ref" = MergedRef (read given "ref").
Proof.
  intros props early.
  assert (Hfresh : ∀ k,
    k ∈ ["loading"; "width"; "height"; "decoding"; "className"; "style"; "sizes";
         "srcSet"; "src"; "ref"; "onLoad"; "onError"] → k ∉ early)
    by apply named_not_early.
  assert (Hk : ∀ k L,
    existsb (String.eqb k)
      ["loading"; "width"; "height"; "decoding"; "className"; "style"; "sizes";
       "srcSet"; "src"; "ref"; "onLoad"; "onError"] = true →
    with_key k (early ++ L) = (early ++ with_key k L)%list).
  { intros k L H. apply with_key_fresh, Hfresh. now apply existsb_eqb_elem. }
  assert (Href : read (element given) "ref" = MergedRef (read given "ref")).
  { unfold Element.ImageElement, forwardRef, ImageElement_render. cbv zeta.
    now rewrite !read_assign. }
  unfold Element.ImageElement, forwardRef, ImageElement_render. cbv zeta.
  rewrite !keys_assign. fold props. fold early.
  replace (with_key "loading" early) with (with_key "loading" (early ++ []))
    by now rewrite app_nil_r.
  destruct (decide ("data-nimg" ∈ early)) as [Hn|Hn].
  - exists []. split; [now left|]. split; [|split; [|exact Href]].
    + rewrite !Hk by reflexivity. rewrite (with_key_known "data-nimg") by exact Hn.
      rewrite !Hk by reflexivity. reflexivity.
    + apply Forall_forall. exact Hfresh.
  - exists ["data-nimg"]. split; [now right|]. split; [|split; [|exact Href]].
    + rewrite !Hk by reflexivity. rewrite (with_key_fresh "data-nimg") by exact Hn.
      rewrite !Hk by reflexivity. reflexivity.
    + apply Forall_forall. exact Hfresh.
Qed.

Lemma priority_key_cases :
  priority_key = "fetchPriority" ∨ priority_key = "fetchpriority".
Proof. unfold Element.priority_key. destruct react_has_use; auto. Qed.

Lemma read_element (given : object) (k : string) :
  k ∈ ["loading"; "width"; "height"; "decoding"; "className"; "style"; "sizes";
       "srcSet"; "src"] →
  read (element given) k = read (without_reserved given) k.
Proof.
  intros Hk. unfold Element.ImageElement, forwardRef, ImageElement_render.
  cbv zeta. rewrite !read_assign.
  repeat (apply elem_of_cons in Hk as [->|Hk]; [reflexivity|]).
  now apply elem_of_nil in Hk.
Qed.

Lemma read_element_priority (given : object) :
  read (element given) priority_key = read (without_reserved given) "fetchPriority".
Proof.
  unfold Element.ImageElement, forwardRef, ImageElement_render.
  cbv zeta. rewrite !read_assign, spread_dynamic.
  rewrite read_assign.
  destruct priority_key_cases as [-> | ->]; reflexivity.
Qed.

(** X19: the preload asks for what the image will load.  For attributes
    with distinct keys, the [img] element gets the [src], [srcSet], [sizes]
    and fetch priority that [getImgProps] returned, whatever else the
    component adds; and when the image has priority and this React DOM can
    preload, [ReactDOM.preload] is called with that same [src], with that
    [srcSet] and [sizes] as [imageSrcSet] and [imageSizes], as an image and
    with the same fetch priority under the same key.  Without priority, or
    without [preload], nothing is preloaded. *)
Theorem preload_matches_image (imgAttributes : object) (imgMeta : meta)
    (props_sizes : prop) (refs setters : prop * prop) (forwardedRef : prop) :
  NoDup (keys imgAttributes) →
  let rendered := Element.NextImage number_is_zero react_has_use react_dom_has_preload
                    imgAttributes imgMeta props_sizes refs setters forwardedRef in
  read rendered.1 "src" = read imgAttributes "src"
  ∧ read rendered.1 "srcSet" = read imgAttributes "srcSet"
  ∧ read rendered.1 "sizes" = read imgAttributes "sizes"
  ∧ read rendered.1 priority_key = read imgAttributes "fetchPriority"
  ∧ (truthy_prop number_is_zero (meta_priority imgMeta) = true →
     react_dom_has_preload = true →
     ∃ opts, rendered.2 = Some (read rendered.1 "src", opts)
       ∧ read opts "as" = Data (VStr "image")
       ∧ read opts "imageSrcSet" = read rendered.1 "srcSet"
       ∧ read opts "imageSizes" = read rendered.1 "sizes"
       ∧ read opts priority_key = read rendered.1 priority_key)
  ∧ (truthy_prop number_is_zero (meta_priority imgMeta) = false
     ∨ react_dom_has_preload = false →
     rendered.2 = None).
Proof.
  intros Hdistinct rendered.
  assert (Hspread : spread imgAttributes [] = imgAttributes)
    by (apply (spread_fresh imgAttributes []); exact Hdistinct).
  assert (Hread : ∀ k,
    k ∈ ["src"; "srcSet"; "sizes"; "fetchPriority"] →
    read (without_reserved
            (assign "ref" forwardedRef
               (assign "sizesInput" props_sizes
                  (assign "setShowAltText" setters.2
                     (assign "setBlurComplete" setters.1
                        (assign "onLoadingCompleteRef" refs.2
                           (assign "onLoadRef" refs.1
                              (assign "fill" (meta_fill imgMeta)
                                 (assign "placeholder" (meta_placeholder imgMeta)
                                    (assign "unoptimized" (meta_unoptimized imgMeta)
                                       imgAttributes)))))))))) k
    = read imgAttributes k).
  { intros k Hk.
    repeat (apply elem_of_cons in Hk as [->|Hk];
            [rewrite read_without_reserved by reflexivity;
             rewrite !read_assign; reflexivity|]).
    now apply elem_of_nil in Hk. }
  assert (Hsrc : read rendered.1 "src" = read imgAttributes "src").
  { unfold rendered, Element.NextImage. cbv zeta. cbn [fst]. rewrite Hspread.
    rewrite read_element by (apply existsb_eqb_elem; reflexivity).
    apply Hread, existsb_eqb_elem. reflexivity. }
  assert (HsrcSet : read rendered.1 "srcSet" = read imgAttributes "srcSet").
  { unfold rendered, Element.NextImage. cbv zeta. cbn [fst]. rewrite Hspread.
    rewrite read_element by (apply existsb_eqb_elem; reflexivity).
    apply Hread, existsb_eqb_elem. reflexivity. }
  assert (Hsizes : read rendered.1 "sizes" = read imgAttributes "sizes").
  { unfold rendered, Element.NextImage. cbv zeta. cbn [fst]. rewrite Hspread.
    rewrite read_element by (apply existsb_eqb_elem; reflexivity).
    apply Hread, existsb_eqb_elem. reflexivity. }
  assert (Hpriority : read rendered.1 priority_key = read imgAttributes "fetchPriority").
  { unfold rendered, Element.NextImage. cbv zeta. cbn [fst]. rewrite Hspread.
    rewrite read_element_priority.
    apply Hread, existsb_eqb_elem. reflexivity. }
  split; [exact Hsrc|]. split; [exact HsrcSet|]. split; [exact Hsizes|].
  split; [exact Hpriority|]. split.
  - intros Hp Hpre. rewrite Hsrc, HsrcSet, Hsizes, Hpriority.
    unfold rendered, Element.NextImage, Element.ImagePreload. cbv zeta. cbn [snd].
    rewrite Hp, Hpre. eexists. split; [reflexivity|].
    rewrite spread_dynamic, !read_assign.
    destruct priority_key_cases as [-> | ->]; cbn; repeat split.
  - intros H. unfold rendered, Element.NextImage, Element.ImagePreload.
    cbv zeta. cbn [snd].
    destruct H as [-> | ->]; [reflexivity|].
    now destruct (truthy_prop number_is_zero (meta_priority imgMeta)).
Qed.

End RenderFacts.

End ElementFacts.

(** * The further properties on the samples *)

Section OnSamples.

Import Site Samples.

Local Abbreviation complete := (handleRouteChangeComplete Tabled.by_id).

Lemma sample_other_entry_kept :
  sessionStorage (outcome Tabled.by_id (Some "r2") pageB keptA).2
    !! selector_key (Some "r5") (Some "r6") = Some "#kept"
  ∧ is_Some (sessionStorage (outcome Tabled.by_id (Some "r2") pageB keptA).2
               !! selector_key (Some "r5") (Some "r6")).
Proof.
  destruct (completion_touches_two_keys Tabled.by_id (Some "r2") pageB keptA
              (outcome Tabled.by_id (Some "r2") pageB keptA).2 (Ok tt))
    as [Hother Hkept].
  - vm_compute. reflexivity.
  - split.
    + rewrite (Hother (selector_key (Some "r5") (Some "r6"))).
      * vm_compute. reflexivity.
      * vm_compute. discriminate.
      * vm_compute. discriminate.
    + apply Hkept. exists "#kept". vm_compute. reflexivity.
Defined.

Lemma sample_forward_again :
  ∃ b1 r b2 b3,
    complete (Some "r2") pageB (Client clickedA) = (Ok tt, Client b1)
    ∧ complete (Some "r1") pageA (Client b1) = (r, Client b2)
    ∧ complete (Some "r2") pageB (Client b2) = (Ok tt, Client b3)
    ∧ viewTransitionName b3 !! 7 = Some transition_img_name.
Proof.
  apply (forward_again_marks_matched_element Tabled.by_id pageB pageA pageB
           (Some "r1") (Some "r2") clickedA 7 "#img-7").
  - reflexivity.
  - vm_compute. reflexivity.
  - vm_compute. reflexivity.
  - vm_compute. reflexivity.
  - discriminate.
  - vm_compute. discriminate.
  - reflexivity.
Defined.

Lemma sample_undefined_is_matched :
  ∃ b2,
    complete (Some "r3") pageU (Client visitedB) = (Ok tt, Client b2)
    ∧ viewTransitionName b2 !! 9 = Some transition_img_name.
Proof.
  destruct (cleared_marker_is_queried_as_undefined Tabled.by_id
              (Some "r2") (Some "r3") pageB pageU clickedA visitedB 9)
    as (b2 & H1 & H2 & _).
  - vm_compute. reflexivity.
  - vm_compute. reflexivity.
  - vm_compute. reflexivity.
  - exists b2. split; [exact H1|exact H2].
Defined.

Lemma sample_key_names_its_pair :
  show None = show (Some "undefined") ∧ show (Some "r1") = show (Some "r1").
Proof.
  apply (selector_key_determines_pair None (Some "r1") (Some "undefined") (Some "r1"));
    reflexivity.
Defined.

Lemma sample_short_table_throws :
  getMockArticleList articles (fun _ => "") 1 = Throw TypeError
  ∧ ∃ props, getMockArticleList articles (fun _ => "") 20 = Ok (VObj props).
Proof.
  split.
  - destruct (getMockArticleList_throws_iff articles (fun _ => "") 1)
      as (_ & Hshort & _).
    apply Hshort. vm_compute. lia.
  - destruct (getMockArticleList_throws_iff articles (fun _ => "") 20)
      as (_ & _ & Hgood).
    apply Hgood; reflexivity.
Defined.

Lemma sample_ids_told_apart :
  getMockArticleList articles (fun _ => "") 20 = Ok (mock_article "20")
  ∧ getMockArticleList articles (fun _ => "") 40 = Ok (mock_article "40")
  ∧ field (field (mock_article "20") "attributes") "slug"
    ≠ field (field (mock_article "40") "attributes") "slug"
  ∧ mock_article "20" ≠ mock_article "40".
Proof.
  split; [vm_compute; reflexivity|]. split; [vm_compute; reflexivity|].
  destruct (getMockArticleList_tells_ids_apart articles (fun _ => "") 20 40
              (mock_article "20") (mock_article "40"))
    as (_ & _ & Hslug & Hne);
    [reflexivity|reflexivity|discriminate|vm_compute; reflexivity
    |vm_compute; reflexivity|].
  split; [exact Hslug|exact Hne].
Defined.

Lemma sample_click_values :
  toAttributeValue (click_transition pageA link1) = "/img/a.png"
  ∧ toAttributeValue (click_transition pageA link2) = ""
  ∧ toAttributeValue (click_transition pageC link1) = "https://cdn.io/a.png?from="
  ∧ toAttributeValue (click_transition pageC link2) = "https://cdn.io/b.png".
Proof.
  split; [|split; [|split]].
  - destruct (click_hands_over_stripped_src Tabled.by_id link1 pageA)
      as (_ & _ & _ & Hpath & _).
    apply (Hpath 3); reflexivity.
  - destruct (click_hands_over_stripped_src Tabled.by_id link2 pageA)
      as (_ & _ & Hnone & _).
    apply Hnone. reflexivity.
  - destruct (click_hands_over_stripped_src Tabled.by_id link1 pageC)
      as (_ & _ & _ & _ & _ & Hat).
    apply (Hat 4 "https://cdn.io/a.png?from=" ""); vm_compute; reflexivity.
  - destruct (click_hands_over_stripped_src Tabled.by_id link2 pageC)
      as (_ & _ & _ & _ & Habsent & _).
    apply (Habsent 5); vm_compute; reflexivity.
Defined.

Lemma sample_sizes_sorted :
  ∃ q, ImageConfig.qualities (ImageConfig.base (ImageConfig.config sizes).1) = Some q
       ∧ Sorted Z.le q.
Proof.
  destruct (ImageConfigFacts.config_sizes_ascending sizes)
    as (_ & _ & _ & _ & Hq & _).
  destruct (Hq [90; 75]%Z) as (q & Hq1 & Hq2 & _); [reflexivity|].
  exists q. split; [exact Hq1|exact Hq2].
Defined.

Lemma sample_sizes_reordered :
  ImageConfig.allSizes (ImageConfig.config sizes).1
  = ImageConfig.allSizes (ImageConfig.config sizes_reordered).1
  ∧ ImageConfig.deviceSizes (ImageConfig.base (ImageConfig.config sizes).1)
    = ImageConfig.deviceSizes (ImageConfig.base (ImageConfig.config sizes_reordered).1)
  ∧ ImageConfig.config (ImageConfig.config sizes).2 = ImageConfig.config sizes.
Proof.
  apply (ImageConfigFacts.config_order_independent sizes sizes_reordered).
  - cbn. apply perm_swap.
  - cbn. apply perm_swap.
Defined.

Lemma sample_article_renders :
  BlogItemPostPage zero_literal listed_article = Ok BlogItemPostPageLoader
  ∧ BlogItemPostPage zero_literal full_article
    = Ok (Page (VArr []) (VArr [VStr "paragraph"])).
Proof.
  split.
  - destruct (BlogItemPostPage_renders zero_literal listed_article) as (_ & Hobj & _);
      [reflexivity|].
    apply (Hobj [("title", VStr "One"); ("slug", VStr "one")]). reflexivity.
  - destruct (BlogItemPostPage_renders zero_literal full_article) as (_ & Hobj & _);
      [reflexivity|].
    apply (Hobj [("title", VStr "One"); ("content", VArr [VStr "paragraph"])]).
    reflexivity.
Defined.

Lemma sample_reveal :
  reveal zero_literal VUndefined (Some 5) (∅ : gmap nat string) = ∅
  ∧ reveal zero_literal (VArr [VStr "paragraph"]) (Some 5) (∅ : gmap nat string) !! 5
    = Some "1".
Proof.
  split.
  - destruct (reveal_follows_render zero_literal listed_article VUndefined (VArr [])
                (Some 5) ∅) as (Hloader & _); [reflexivity|].
    apply Hloader. reflexivity.
  - destruct (reveal_follows_render zero_literal full_article
                (VArr [VStr "paragraph"]) (VArr []) (Some 5) ∅) as (_ & Hpage & _);
      [reflexivity|].
    destruct (Hpage 5) as [H _]; [reflexivity|reflexivity|exact H].
Defined.

Lemma sample_mount_then_load :
  Loading.pending (Loading.onLoad blurred (Loading.ownRef true blurred (Some tt) mounted))
  = [{| Loading.placeholder := "blur";
        Loading.loaded_src := "http://x.io/img/a.png";
        Loading.unoptimized := false;
        Loading.sizesInput := None |}].
Proof.
  destruct (LoadingFacts.mount_then_load_queues_once true blurred mounted) as [H _].
  - discriminate.
  - exact H.
Defined.

Lemma sample_unmounted_settles_quietly :
  Loading.settle true no_url unmounted = Loading.set_pending [] unmounted.
Proof.
  apply (LoadingFacts.settle_unmounted true no_url unmounted).
  left. reflexivity.
Defined.

Lemma sample_current_refs_called :
  Loading.effects
    (Loading.settle true no_url
       (Loading.sync_onLoadingCompleteRef (Some 8)
          (Loading.sync_onLoadRef (Some 7) (Loading.onLoad blurred mounted))))
  = [Loading.Decode; Loading.SetBlurComplete true; Loading.OnLoad 7;
     Loading.OnLoadingComplete 8].
Proof.
  apply (LoadingFacts.settle_calls_current_refs true no_url blurred mounted
           (Some 7) (Some 8)).
  - reflexivity.
  - reflexivity.
  - discriminate.
  - exists "relative". reflexivity.
  - reflexivity.
Defined.

Lemma sample_production_is_silent :
  Loading.emits Loading.silent mounted (Loading.ownRef true blurred (Some tt) mounted).
Proof.
  destruct (LoadingFacts.production_is_silent true no_url) as (_ & _ & H & _);
    [reflexivity|].
  apply H.
Defined.

Lemma sample_preload_matches :
  let rendered := Element.NextImage zero_literal true true attributes with_priority
                    (Element.Data (VStr "100vw"))
                    (Element.Function 1, Element.Function 2)
                    (Element.Function 3, Element.Function 4) (Element.Function 5) in
  Element.read rendered.1 "src" = Element.Data (VStr "/img/a.png")
  ∧ ∃ opts, rendered.2 = Some (Element.read rendered.1 "src", opts)
            ∧ Element.read opts "imageSrcSet" = Element.read rendered.1 "srcSet".
Proof.
  intros rendered.
  destruct (ElementFacts.preload_matches_image zero_literal true true attributes
              with_priority (Element.Data (VStr "100vw"))
              (Element.Function 1, Element.Function 2)
              (Element.Function 3, Element.Function 4) (Element.Function 5))
    as (Hsrc & _ & _ & _ & Hpre & _).
  - apply (bool_decide_unpack (NoDup (Element.keys attributes))). vm_compute. exact I.
  - split; [exact Hsrc|].
    destruct Hpre as (opts & H1 & _ & H2 & _); [reflexivity|reflexivity|].
    exists opts. split; [exact H1|exact H2].
Defined.

End OnSamples.
